(** * SAMv3 bridge client ([sam3.go]): a shallow embedding and its properties

    The Go package drives the SAMv3 bridge of an I2P router over a TCP
    connection with newline-terminated text commands.  This development
    embeds the four operations of [sam3.go] ([NewSAM], [NewKeys], [Lookup],
    [newGenericSession]) as functions over an explicit connection state and
    proves properties of the reply classification, of the token scans and of
    the session-create command.

    Go strings are byte sequences; they are modelled by [string], whose
    characters are 8-bit [ascii] values. *)

From Stdlib Require Import String Ascii List Bool Arith NArith Lia.
Import ListNotations.

Local Open Scope list_scope.
Local Open Scope string_scope.

(** ** Byte strings *)

Module Str.

(** The one-byte string holding a line feed (Go's ["\n"]). *)
Definition nl : string := String (ascii_of_nat 10) EmptyString.

(** [s[:n]] when [n <= len(s)]. *)
Fixpoint take (n : nat) (s : string) : string :=
  match n, s with
  | S k, String a r => String a (take k r)
  | _, _ => EmptyString
  end.

(** [s[n:]] when [n <= len(s)]; the empty string beyond. *)
Fixpoint drop (n : nat) (s : string) : string :=
  match n, s with
  | S k, String _ r => drop k r
  | _, _ => s
  end.

(** Go's slice expression [s[lo:hi]]: it panics (here [None]) unless
    [lo <= hi <= len(s)]. *)
Definition slice (lo hi : nat) (s : string) : option string :=
  if ((lo <=? hi) && (hi <=? String.length s))%nat
  then Some (take (hi - lo) (drop lo s))
  else None.

(** Go's slice expression [s[lo:]], that is [s[lo:len(s)]]. *)
Definition slice_from (lo : nat) (s : string) : option string :=
  slice lo (String.length s) s.

(** [strings.HasPrefix(s, p)], that is
    [len(s) >= len(p) && s[:len(p)] == p]. *)
Definition HasPrefix (s p : string) : bool :=
  (String.length p <=? String.length s)%nat && (take (String.length p) s =? p).

(** [strings.Join(elems, sep)]: nothing for no element, the element itself
    for one, and otherwise the first element followed by [sep] and the next
    element for each further one. *)
Definition Join (elems : list string) (sep : string) : string :=
  match elems with
  | [] => EmptyString
  | e :: rest => fold_left (fun b s => b ++ sep ++ s) rest e
  end.

(** [strings.Contains(s, sub)], by trying every position of [s]. *)
Fixpoint Contains (s sub : string) : bool :=
  HasPrefix s sub ||
  match s with
  | EmptyString => false
  | String _ r => Contains r sub
  end.

End Str.

(** ** UTF-8 decoding and white space, as [bufio.ScanWords] sees them *)

Module Utf8.

Local Open Scope N_scope.

Definition RuneError : N := 0xFFFD.

(** The table [first] of package [unicode/utf8]: for a leading byte, the
    size of the sequence in the low three bits and the index of the accept
    range of the second byte in the high four; [0xF0] marks ASCII and
    [0xF1] an invalid leading byte. *)
Definition first (p0 : N) : N :=
  if p0 <? 0x80 then 0xF0
  else if p0 <? 0xC2 then 0xF1
  else if p0 <? 0xE0 then 0x02
  else if p0 =? 0xE0 then 0x13
  else if p0 <? 0xED then 0x03
  else if p0 =? 0xED then 0x23
  else if p0 <? 0xF0 then 0x03
  else if p0 =? 0xF0 then 0x34
  else if p0 <? 0xF4 then 0x04
  else if p0 =? 0xF4 then 0x44
  else 0xF1.

(** The table [acceptRanges]: bounds of the second byte. *)
Definition acceptRanges (i : N) : N * N :=
  match i with
  | 0 => (0x80, 0xBF)
  | 1 => (0xA0, 0xBF)
  | 2 => (0x80, 0x9F)
  | 3 => (0x90, 0xBF)
  | 4 => (0x80, 0x8F)
  | _ => (0xFF, 0x00)
  end.

Definition cont (b : N) : bool := (0x80 <=? b) && (b <=? 0xBF).

(** [utf8.DecodeRune(p)]: the first rune of [p] and its width in bytes;
    [(RuneError, 1)] for an invalid or truncated encoding and
    [(RuneError, 0)] for the empty input. *)
Definition DecodeRune (p : string) : N * nat :=
  match p with
  | EmptyString => (RuneError, 0%nat)
  | String a0 p1 =>
    let p0 := N_of_ascii a0 in
    let x := first p0 in
    if 0xF0 <=? x then ((if x =? 0xF0 then p0 else RuneError), 1%nat)
    else
      let sz := N.land x 7 in
      let '(lo, hi) := acceptRanges (N.shiftr x 4) in
      match p1 with
      | EmptyString => (RuneError, 1%nat)
      | String a1 p2 =>
        let b1 := N_of_ascii a1 in
        if N.of_nat (String.length p) <? sz then (RuneError, 1%nat)
        else if (b1 <? lo) || (hi <? b1) then (RuneError, 1%nat)
        else if sz <=? 2 then
          (N.lor (N.shiftl (N.land p0 0x1F) 6) (N.land b1 0x3F), 2%nat)
        else
          match p2 with
          | EmptyString => (RuneError, 1%nat)
          | String a2 p3 =>
            let b2 := N_of_ascii a2 in
            if negb (cont b2) then (RuneError, 1%nat)
            else if sz <=? 3 then
              (N.lor (N.lor (N.shiftl (N.land p0 0x0F) 12)
                            (N.shiftl (N.land b1 0x3F) 6))
                     (N.land b2 0x3F), 3%nat)
            else
              match p3 with
              | EmptyString => (RuneError, 1%nat)
              | String a3 _ =>
                let b3 := N_of_ascii a3 in
                if negb (cont b3) then (RuneError, 1%nat)
                else
                  (N.lor (N.lor (N.lor (N.shiftl (N.land p0 0x07) 18)
                                       (N.shiftl (N.land b1 0x3F) 12))
                                (N.shiftl (N.land b2 0x3F) 6))
                         (N.land b3 0x3F), 4%nat)
              end
          end
      end
  end.

(** [isSpace] of package [bufio]: the ASCII white space, the two Latin-1
    spaces, and the Unicode spaces above [U+00FF]. *)
Definition isSpace (r : N) : bool :=
  if r <=? 0xFF then
    (r =? 0x20) || (r =? 0x09) || (r =? 0x0A) || (r =? 0x0B) || (r =? 0x0C)
    || (r =? 0x0D) || (r =? 0x85) || (r =? 0xA0)
  else if (0x2000 <=? r) && (r <=? 0x200A) then true
  else (r =? 0x1680) || (r =? 0x2028) || (r =? 0x2029) || (r =? 0x202F)
       || (r =? 0x205F) || (r =? 0x3000).

End Utf8.

(** ** The word scanner *)

Module Scanner.

(** The word collected so far, as a token list: nothing when empty. *)
Definition flush (cur : string) : list string :=
  match cur with
  | EmptyString => []
  | _ => [cur]
  end.

(** The tokens that a [bufio.Scanner] with the split function
    [bufio.ScanWords] yields over [data] read to its end: the maximal runs
    of runes that are not white space.  [skip] counts the bytes still to
    pass of the rune decoded last, [space] tells whether that rune was
    white space, and [cur] is the word collected so far.  A rune is decoded
    only where the previous one ended, as the scanner's loops do. *)
Fixpoint words (data : string) (skip : nat) (space : bool) (cur : string)
  : list string :=
  match data with
  | EmptyString => flush cur
  | String a rest =>
    match skip with
    | S k =>
      if space then words rest k space cur
      else words rest k space (cur ++ String a EmptyString)
    | O =>
      let '(r, w) := Utf8.DecodeRune data in
      if Utf8.isSpace r
      then (flush cur ++ words rest (pred w) true EmptyString)%list
      else words rest (pred w) false (cur ++ String a EmptyString)
    end
  end.

(** All tokens of a buffer, in order. *)
Definition ScanWords (data : string) : list string :=
  words data 0 true EmptyString.

End Scanner.

(** ** Errors and results *)

(** A Go [error] value: one made by [errors.New], or one reported by the
    transport (package [net]); both carry their message. *)
Inductive error : Type :=
| errors_New (msg : string)
| net_Error (msg : string).

(** The method [Error()] of an [error]. *)
Definition Error (e : error) : string :=
  match e with
  | errors_New msg => msg
  | net_Error msg => msg
  end.

(** What a call produces: a value with a [nil] error, a non-[nil] error, or a
    run-time panic (a slice expression out of range). *)
Inductive Result (A : Type) : Type :=
| Ok (a : A)
| Err (e : error)
| Panic.

Arguments Ok {A} a.
Arguments Err {A} e.
Arguments Panic {A}.

(** Continue with the value of a slice expression, or panic. *)
Definition sliced {A : Type} (o : option string) (k : string -> Result A)
  : Result A :=
  match o with
  | Some s => k s
  | None => Panic
  end.

(** ** The transport *)

Module Net.

(** What the transport does at one call of [Write]: it takes at most [k]
    bytes and reports no error, or it fails. *)
Inductive WriteStep : Type :=
| Accept (k : nat)
| WriteFail (e : error).

(** What the transport does at one call of [Read]: it has [data] to
    deliver, or it fails. *)
Inductive ReadStep : Type :=
| Deliver (data : string)
| ReadFail (e : error).

(** A [net.Conn]: the behaviour of the peer at the calls to come
    ([to_write], [to_read]), the bytes it has taken so far ([sent]), the
    number of calls of [Write] made ([nwrites]) and whether [Close] was
    called. *)
Record Conn : Type := mkConn {
  to_write : list WriteStep;
  to_read : list ReadStep;
  sent : string;
  nwrites : nat;
  closed : bool
}.

(** [conn.Write(p)]: the number of bytes taken, at most [len(p)] as
    [io.Writer] requires, or an error.  With no step left the transport
    takes all of [p]. *)
Definition Write (c : Conn) (p : string) : (nat + error) * Conn :=
  match to_write c with
  | [] =>
    (inl (String.length p),
     mkConn [] (to_read c) (sent c ++ p) (S (nwrites c)) (closed c))
  | Accept k :: ws =>
    let n := Nat.min k (String.length p) in
    (inl n,
     mkConn ws (to_read c) (sent c ++ Str.take n p) (S (nwrites c))
            (closed c))
  | WriteFail e :: ws =>
    (inr e, mkConn ws (to_read c) (sent c) (S (nwrites c)) (closed c))
  end.

(** [conn.Read(buf)] with [len(buf) = size]: the bytes [buf[:n]] read, at
    most [size] of what the transport delivers (the rest stays for the next
    call), or an error.  With no step left the stream is at its end. *)
Definition Read (c : Conn) (size : nat) : (string + error) * Conn :=
  match to_read c with
  | [] => (inr (net_Error "EOF"), c)
  | Deliver data :: rs =>
    (inl (Str.take size data),
     mkConn (to_write c)
            (if (String.length data <=? size)%nat then rs
             else Deliver (Str.drop size data) :: rs)
            (sent c) (nwrites c) (closed c))
  | ReadFail e :: rs =>
    (inr e, mkConn (to_write c) rs (sent c) (nwrites c) (closed c))
  end.

(** [conn.Close()]. *)
Definition Close (c : Conn) : Conn :=
  mkConn (to_write c) (to_read c) (sent c) (nwrites c) true.

End Net.

(** ** The data of [sam3.go] *)

(** [type SAM struct { address string; conn net.Conn }]. *)
Record SAM : Type := mkSAM {
  address : string;
  conn : Net.Conn
}.

Definition I2PAddr : Type := string.

(** The keys of a destination, built in [NewKeys] as
    [I2PKeys{I2PAddr(pub), priv}]: the public address and the private key. *)
Record I2PKeys : Type := mkI2PKeys {
  addr : I2PAddr;
  priv : string
}.

Definition session_OK : string := "SESSION STATUS RESULT=OK DESTINATION=".
Definition session_DUPLICATE_ID : string :=
  "SESSION STATUS RESULT=DUPLICATED_ID" ++ Str.nl.
Definition session_DUPLICATE_DEST : string :=
  "SESSION STATUS RESULT=DUPLICATED_DEST" ++ Str.nl.
Definition session_INVALID_KEY : string :=
  "SESSION STATUS RESULT=INVALID_KEY" ++ Str.nl.
Definition session_I2P_ERROR : string :=
  "SESSION STATUS RESULT=I2P_ERROR MESSAGE=".

Definition hello_OK : string := "HELLO REPLY RESULT=OK VERSION=3.0" ++ Str.nl.
Definition hello_NOVERSION : string := "HELLO REPLY RESULT=NOVERSION" ++ Str.nl.

(** ** The operations *)

Section Operations.

(** [net.Dial(network, address)]: a fresh connection or an error. *)
Variable net_Dial : string -> string -> Net.Conn + error.

(** The method [String()] of [I2PKeys], declared outside [sam3.go]: the
    serialization of the keys sent as the [DESTINATION=] argument. *)
Variable I2PKeys_String : I2PKeys -> string.

(** [NewSAM(address)].  The second component is the state in which the call
    leaves the connection it dialled, if any; on success it is the
    connection held by the returned controller. *)
Definition NewSAM (address : string) : Result SAM * option Net.Conn :=
  match net_Dial "tcp4" address with
  | inr err => (Err err, None)
  | inl conn =>
    match Net.Write conn ("HELLO VERSION MIN=3.0 MAX=3.0" ++ Str.nl) with
    | (inr err, conn) => (Err err, Some conn)
    | (inl _, conn) =>
      match Net.Read conn 256 with
      | (inr err, conn) => (Err err, Some conn)
      | (inl reply, conn) =>
        if reply =? hello_OK then (Ok (mkSAM address conn), Some conn)
        else if reply =? hello_NOVERSION then
          (Err (errors_New "That SAM bridge does not support SAMv3."),
           Some conn)
        else (Err (errors_New reply), Some conn)
      end
    end
  end.

(** The loop [for s.Scan()] of [NewKeys] over the tokens still to come,
    with the variables [pub] and [priv]. *)
Fixpoint NewKeys_loop (tokens : list string) (pub priv : string)
  : Result I2PKeys :=
  match tokens with
  | [] => Ok (mkI2PKeys pub priv)
  | text :: rest =>
    if text =? "DEST" then NewKeys_loop rest pub priv
    else if text =? "REPLY" then NewKeys_loop rest pub priv
    else if Str.HasPrefix text "PUB=" then
      sliced (Str.slice_from 4 text) (fun pub => NewKeys_loop rest pub priv)
    else if Str.HasPrefix text "PRIV=" then
      sliced (Str.slice_from 5 text) (fun priv => NewKeys_loop rest pub priv)
    else Err (errors_New "Failed to parse keys.")
  end.

(** [sam.NewKeys()], with the state in which it leaves [sam.conn]. *)
Definition NewKeys (sam : SAM) : Result I2PKeys * Net.Conn :=
  match Net.Write (conn sam) ("DEST GENERATE" ++ Str.nl) with
  | (inr err, conn) => (Err err, conn)
  | (inl _, conn) =>
    match Net.Read conn (2 * 4096) with
    | (inr err, conn) => (Err err, conn)
    | (inl reply, conn) =>
      (NewKeys_loop (Scanner.ScanWords reply) EmptyString EmptyString, conn)
    end
  end.

(** The loop [for s.Scan()] of [Lookup] over the tokens still to come, with
    the variable [errStr]. *)
Fixpoint Lookup_loop (name : string) (tokens : list string)
         (errStr : string) : Result I2PAddr :=
  match tokens with
  | [] => Err (errors_New errStr)
  | text :: rest =>
    if text =? "RESULT=OK" then Lookup_loop name rest errStr
    else if text =? "RESULT=INVALID_KEY" then
      Lookup_loop name rest (errStr ++ "Invalid key.")
    else if text =? "RESULT=KEY_NOT_FOUND" then
      Lookup_loop name rest (errStr ++ "Unable to resolve " ++ name)
    else if text =? "NAME=" ++ name then Lookup_loop name rest errStr
    else if Str.HasPrefix text "VALUE=" then
      sliced (Str.slice_from 6 text) (fun a => Ok a)
    else if Str.HasPrefix text "MESSAGE=" then
      sliced (Str.slice_from 8 text)
             (fun m => Lookup_loop name rest (errStr ++ " " ++ m))
    else Err (errors_New "Failed to parse lookup reply.")
  end.

(** [sam.Lookup(name)], with the state in which it leaves [sam.conn]. *)
Definition Lookup (sam : SAM) (name : string) : Result I2PAddr * Net.Conn :=
  match Net.Write (conn sam) ("NAMING LOOKUP NAME=" ++ name ++ Str.nl) with
  | (inr err, conn) => (Err err, conn)
  | (inl _, conn) =>
    match Net.Read conn 4096 with
    | (inr err, conn) => (Err err, conn)
    | (inl reply, conn) =>
      let n := String.length reply in
      if (n <=? 13)%nat || negb (Str.HasPrefix reply "NAMING REPLY ") then
        (Err (errors_New "Failed to parse."), conn)
      else
        (sliced (Str.slice 13 n reply)
                (fun rest =>
                   Lookup_loop name (Scanner.ScanWords rest) EmptyString),
         conn)
    end
  end.

(** The string [optStr] built by the loop over [options]. *)
Definition optStr (options : list string) : string :=
  fold_left (fun optStr opt => optStr ++ "OPTION=" ++ opt ++ " ") options
            EmptyString.

(** The command [scmsg] of [newGenericSession]. *)
Definition scmsg (style id : string) (keys : I2PKeys)
           (options extras : list string) : string :=
  "SESSION CREATE STYLE=" ++ style ++ " ID=" ++ id ++ " DESTINATION="
    ++ I2PKeys_String keys ++ " " ++ optStr options
    ++ Str.Join extras " " ++ Str.nl.

(** The write loop [for m, i := 0, 0; m != len(scmsg); i++] of
    [newGenericSession]; [left] is [15 - i], the number of calls of [Write]
    still allowed.  It yields the error to return, if any, and the state of
    the connection. *)
Fixpoint write_loop (left : nat) (scmsg : string) (m : nat) (conn : Net.Conn)
  : option error * Net.Conn :=
  if (m =? String.length scmsg)%nat then (None, conn)
  else
    match left with
    | O => (Some (errors_New "writing to SAM failed"), Net.Close conn)
    | S left' =>
      match Net.Write conn (Str.drop m scmsg) with
      | (inr err, conn) => (Some err, Net.Close conn)
      | (inl n, conn) => write_loop left' scmsg (m + n) conn
      end
    end.

(** The classification of the reply [text] read by [newGenericSession]. *)
Definition session_reply (keys : I2PKeys) (text : string) (conn : Net.Conn)
  : Result Net.Conn * Net.Conn :=
  if Str.HasPrefix text session_OK then
    match Str.slice (String.length session_OK) (String.length text - 1) text
    with
    | None => (Panic, conn)
    | Some dest =>
      if negb (I2PKeys_String keys =? dest) then
        (Err (errors_New
            "SAMv3 created a tunnel with keys other than the ones we asked it for"),
         conn)
      else (Ok conn, conn)
    end
  else if text =? session_DUPLICATE_ID then
    (Err (errors_New "Duplicate tunnel name"), Net.Close conn)
  else if text =? session_DUPLICATE_DEST then
    (Err (errors_New "Duplicate destination"), Net.Close conn)
  else if text =? session_INVALID_KEY then
    (Err (errors_New "Invalid key"), Net.Close conn)
  else if Str.HasPrefix text session_I2P_ERROR then
    match Str.slice_from (String.length session_I2P_ERROR) text with
    | None => (Panic, Net.Close conn)
    | Some msg => (Err (errors_New ("I2P error " ++ msg)), Net.Close conn)
    end
  else
    (Err (errors_New ("Unable to parse SAMv3 reply: " ++ text)),
     Net.Close conn).

(** [sam.newGenericSession(style, id, keys, options, extras)].  The second
    component is the state in which the call leaves the connection that it
    opened, if any; on success the first is that same connection. *)
Definition newGenericSession (sam : SAM) (style id : string) (keys : I2PKeys)
           (options extras : list string)
  : Result Net.Conn * option Net.Conn :=
  match NewSAM (address sam) with
  | (Ok sam2, _) =>
    let conn := conn sam2 in
    let scmsg := scmsg style id keys options extras in
    match write_loop 15 scmsg 0 conn with
    | (Some err, conn) => (Err err, Some conn)
    | (None, conn) =>
      match Net.Read conn 4096 with
      | (inr err, conn) => (Err err, Some (Net.Close conn))
      | (inl text, conn) =>
        let (r, conn) := session_reply keys text conn in (r, Some conn)
      end
    end
  | (Err _, opened) =>
    (Err (errors_New "Unable to create new streaming tunnel."), opened)
  | (Panic, opened) => (Panic, opened)
  end.

End Operations.

(** ** Vocabulary of the properties *)

(** Modelled from the spec: the method [String()] of [I2PKeys] is declared
    outside [sam3.go]; the serialization of the keys is the public address
    followed by the private key, with no loss. *)
Definition I2PKeys_concat (keys : I2PKeys) : string := addr keys ++ priv keys.

(** The tokens that the loop of [NewKeys] passes without failing. *)
Definition NewKeys_accepts (text : string) : bool :=
  (text =? "DEST") || (text =? "REPLY") || Str.HasPrefix text "PUB="
  || Str.HasPrefix text "PRIV=".

(** The value that the tokens with the prefix [p] leave in a variable that
    held [v]: what follows the prefix in the last of them. *)
Fixpoint last_set (p : string) (tokens : list string) (v : string) : string :=
  match tokens with
  | [] => v
  | text :: rest =>
    if Str.HasPrefix text p
    then last_set p rest (Str.drop (String.length p) text)
    else last_set p rest v
  end.

(** The tokens after which the loop of [Lookup] goes on to the next one. *)
Definition Lookup_continues (name text : string) : bool :=
  (text =? "RESULT=OK") || (text =? "RESULT=INVALID_KEY")
  || (text =? "RESULT=KEY_NOT_FOUND") || (text =? "NAME=" ++ name)
  || Str.HasPrefix text "MESSAGE=".

(** A printable ASCII byte other than the space. *)
Definition graphic (a : ascii) : bool :=
  (N.ltb 0x20 (N_of_ascii a)) && (N.ltb (N_of_ascii a) 0x7F).

(** A string of printable ASCII bytes with no space: what a token of a
    command line may hold. *)
Fixpoint word (s : string) : bool :=
  match s with
  | EmptyString => true
  | String a r => graphic a && word r
  end.

(** A non-empty [word]. *)
Definition token (s : string) : bool :=
  match s with
  | EmptyString => false
  | _ => word s
  end.

(** The [OPTION=] tokens of a command line, each followed by one space, in
    the order of [options]. *)
Fixpoint option_tokens (options : list string) : string :=
  match options with
  | [] => EmptyString
  | opt :: rest => "OPTION=" ++ opt ++ " " ++ option_tokens rest
  end.

(** The tokens of the session-create command for the given arguments, in
    order: the two command words, the three fields, one [OPTION=] token for
    each option and then the extras. *)
Definition command_tokens (style id dest : string)
           (options extras : list string) : list string :=
  "SESSION" :: "CREATE" :: ("STYLE=" ++ style) :: ("ID=" ++ id)
    :: ("DESTINATION=" ++ dest)
    :: (map (fun opt => ("OPTION=" ++ opt)%string) options ++ extras)%list.

(** An open connection on which nothing happened yet, to a peer that takes
    the writes as [ws] says and answers the reads as [rs] says. *)
Definition fresh (ws : list Net.WriteStep) (rs : list Net.ReadStep)
  : Net.Conn :=
  Net.mkConn ws rs EmptyString 0 false.

(** A network on which every dial reaches the peer of [c]. *)
Definition dial_to (c : Net.Conn) (network address : string)
  : Net.Conn + error :=
  inl c.

(** A network on which every dial is refused. *)
Definition dial_refused (network address : string) : Net.Conn + error :=
  inr (net_Error "connection refused").

(** A bridge that completes the handshake and then answers [reply]. *)
Definition bridge (reply : string) : Net.Conn :=
  fresh [] [Net.Deliver hello_OK; Net.Deliver reply].

(** A controller whose connection answers the next read with [reply]. *)
Definition controller (reply : string) : SAM :=
  mkSAM "127.0.0.1:7656" (fresh [] [Net.Deliver reply]).

Definition sample_keys : I2PKeys := mkI2PKeys "PUBK" "PRIVK".



(** ** Byte strings: lemmas *)

Lemma take_length (n : nat) (s : string) :
  String.length (Str.take n s) = Nat.min n (String.length s).
Proof.
  revert s; induction n as [|n IH]; intros [|a r]; simpl; auto.
Qed.

Lemma drop_length (n : nat) (s : string) :
  String.length (Str.drop n s) = String.length s - n.
Proof.
  revert s; induction n as [|n IH]; intros [|a r]; simpl; auto.
Qed.

Lemma take_all (n : nat) (s : string) :
  String.length s <= n -> Str.take n s = s.
Proof.
  revert s; induction n as [|n IH]; intros [|a r]; simpl; intros H;
    try reflexivity; try lia.
  f_equal; apply IH; lia.
Qed.

Lemma take_drop (n : nat) (s : string) : Str.take n s ++ Str.drop n s = s.
Proof.
  revert s; induction n as [|n IH]; intros [|a r]; simpl; auto.
  f_equal; apply IH.
Qed.

Lemma app_length (s t : string) :
  String.length (s ++ t) = String.length s + String.length t.
Proof.
  induction s as [|a s IH]; simpl; auto.
Qed.

Lemma app_assoc (s t u : string) : (s ++ t) ++ u = s ++ t ++ u.
Proof.
  induction s as [|a s IH]; simpl; auto; f_equal; exact IH.
Qed.

Lemma app_empty_r (s : string) : s ++ EmptyString = s.
Proof.
  induction s as [|a s IH]; simpl; auto; f_equal; exact IH.
Qed.

Lemma drop_app (s t : string) : Str.drop (String.length s) (s ++ t) = t.
Proof.
  induction s as [|a s IH]; simpl; auto.
Qed.

Lemma take_app (s t : string) : Str.take (String.length s) (s ++ t) = s.
Proof.
  induction s as [|a s IH]; simpl; [reflexivity|f_equal; exact IH].
Qed.

Lemma drop_drop (n m : nat) (s : string) :
  Str.drop n (Str.drop m s) = Str.drop (m + n) s.
Proof.
  revert s; induction m as [|m IH]; intros s; simpl; [reflexivity|].
  destruct s as [|a r]; simpl; [destruct n; reflexivity|apply IH].
Qed.

Lemma take_take_drop (m n : nat) (s : string) :
  Str.take m s ++ Str.take n (Str.drop m s) = Str.take (m + n) s.
Proof.
  revert s; induction m as [|m IH]; intros s; simpl; [reflexivity|].
  destruct s as [|a r]; simpl; [destruct n; reflexivity|f_equal; apply IH].
Qed.

(** [strings.HasPrefix(s, p)] holds exactly when [s] is [p] followed by some
    rest. *)
Lemma HasPrefix_app (s p : string) :
  Str.HasPrefix s p = true <-> exists r, s = p ++ r.
Proof.
  unfold Str.HasPrefix; rewrite andb_true_iff, Nat.leb_le, String.eqb_eq.
  split.
  - intros [_ H]; exists (Str.drop (String.length p) s).
    rewrite <- H at 1; symmetry; apply take_drop.
  - intros [r ->]; rewrite app_length, take_app; split; [lia|reflexivity].
Qed.

Lemma HasPrefix_drop (s p : string) :
  Str.HasPrefix s p = true -> s = p ++ Str.drop (String.length p) s.
Proof.
  intros H; apply HasPrefix_app in H; destruct H as [r ->].
  now rewrite drop_app.
Qed.

(** Within bounds the slice [s[lo:]] is defined: it is [s] without its first
    [lo] bytes. *)
Lemma slice_from_le (lo : nat) (s : string) :
  lo <= String.length s -> Str.slice_from lo s = Some (Str.drop lo s).
Proof.
  intros H; unfold Str.slice_from, Str.slice.
  destruct (Nat.leb_spec lo (String.length s)) as [_|]; [|lia].
  rewrite Nat.leb_refl; simpl; f_equal.
  apply take_all; rewrite drop_length; lia.
Qed.

Lemma slice_from_prefix (s p : string) :
  Str.HasPrefix s p = true ->
  Str.slice_from (String.length p) s = Some (Str.drop (String.length p) s).
Proof.
  intros H; apply slice_from_le.
  apply HasPrefix_app in H; destruct H as [r ->]; rewrite app_length; lia.
Qed.

(** ** The handshake of [NewSAM] *)

Lemma hello_replies_differ : hello_OK <> hello_NOVERSION.
Proof. discriminate. Qed.

(** C4.  The classification of the handshake reply is total and three-way.
    Once the dial, the write of the [HELLO] line and the read have gone
    through, whatever bytes [reply] the read returned, exactly one of three
    cases holds: the reply is the success line and [NewSAM] returns the
    controller on the connection; the reply is the no-version line and
    [NewSAM] fails with the unsupported-version error; the reply is anything
    else and [NewSAM] fails with an error whose message is the reply itself.
    The two lines differ, so the cases exclude each other. *)
Theorem NewSAM_classification
        (net_Dial : string -> string -> Net.Conn + error)
        (address : string) (c c1 c2 : Net.Conn) (k : nat) (reply : string) :
  net_Dial "tcp4" address = inl c ->
  Net.Write c ("HELLO VERSION MIN=3.0 MAX=3.0" ++ Str.nl) = (inl k, c1) ->
  Net.Read c1 256 = (inl reply, c2) ->
  hello_OK <> hello_NOVERSION /\
  ((reply = hello_OK /\
    NewSAM net_Dial address = (Ok (mkSAM address c2), Some c2))
   \/ (reply = hello_NOVERSION /\
       NewSAM net_Dial address =
       (Err (errors_New "That SAM bridge does not support SAMv3."), Some c2))
   \/ (reply <> hello_OK /\ reply <> hello_NOVERSION /\
       NewSAM net_Dial address = (Err (errors_New reply), Some c2) /\
       Error (errors_New reply) = reply)).
Proof.
  intros Hd Hw Hr; split; [exact hello_replies_differ|].
  unfold NewSAM; rewrite Hd, Hw, Hr.
  destruct (String.eqb_spec reply hello_OK) as [E1|N1]; [left; auto|].
  destruct (String.eqb_spec reply hello_NOVERSION) as [E2|N2];
    [right; left; auto|right; right; auto].
Qed.

Lemma NewSAM_classification_witness :
  let c := fresh [] [Net.Deliver "HELLO REPLY RESULT=I2P_ERROR"] in
  let c1 := snd (Net.Write c ("HELLO VERSION MIN=3.0 MAX=3.0" ++ Str.nl)) in
  let c2 := snd (Net.Read c1 256) in
  let reply := "HELLO REPLY RESULT=I2P_ERROR" in
  hello_OK <> hello_NOVERSION /\
  ((reply = hello_OK /\
    NewSAM (dial_to c) "127.0.0.1:7656"
    = (Ok (mkSAM "127.0.0.1:7656" c2), Some c2))
   \/ (reply = hello_NOVERSION /\
       NewSAM (dial_to c) "127.0.0.1:7656" =
       (Err (errors_New "That SAM bridge does not support SAMv3."), Some c2))
   \/ (reply <> hello_OK /\ reply <> hello_NOVERSION /\
       NewSAM (dial_to c) "127.0.0.1:7656" = (Err (errors_New reply), Some c2)
       /\ Error (errors_New reply) = reply)).
Proof.
  intros c c1 c2 reply.
  apply (NewSAM_classification (dial_to c) "127.0.0.1:7656" c c1 c2 30 reply);
    reflexivity.
Defined.

(** ** Name resolution: the reply header and the scenario *)

(** C10.  [Lookup] rejects every reply of 13 bytes or fewer with the parse
    error, the header [NAMING REPLY ] (13 bytes) alone included although it
    begins with the header; a lookup that succeeds has read a reply strictly
    longer than the header. *)
Theorem Lookup_short_reply
        (sam : SAM) (name : string) (k : nat) (c1 c2 : Net.Conn)
        (reply : string) :
  Net.Write (conn sam) ("NAMING LOOKUP NAME=" ++ name ++ Str.nl)
  = (inl k, c1) ->
  Net.Read c1 4096 = (inl reply, c2) ->
  (String.length reply <= 13 ->
   Lookup sam name = (Err (errors_New "Failed to parse."), c2))
  /\ (reply = "NAMING REPLY " ->
      Str.HasPrefix reply "NAMING REPLY " = true /\
      Lookup sam name = (Err (errors_New "Failed to parse."), c2))
  /\ (forall a : I2PAddr,
         fst (Lookup sam name) = Ok a -> 13 < String.length reply).
Proof.
  intros Hw Hr.
  assert (Hshort : String.length reply <= 13 ->
                   Lookup sam name = (Err (errors_New "Failed to parse."), c2)).
  { intros Hn; unfold Lookup; rewrite Hw, Hr.
    apply Nat.leb_le in Hn; rewrite Hn; reflexivity. }
  split; [exact Hshort|split].
  - intros ->; split; [reflexivity|apply Hshort; simpl; lia].
  - intros a Ha.
    destruct (Nat.le_gt_cases (String.length reply) 13) as [Hn|Hn]; [|exact Hn].
    rewrite (Hshort Hn) in Ha; discriminate.
Qed.

Lemma Lookup_short_reply_witness :
  let sam := controller "NAMING REPLY " in
  let c1 := snd (Net.Write (conn sam)
                           ("NAMING LOOKUP NAME=" ++ "zzz.i2p" ++ Str.nl)) in
  let c2 := snd (Net.Read c1 4096) in
  (String.length "NAMING REPLY " <= 13 ->
   Lookup sam "zzz.i2p" = (Err (errors_New "Failed to parse."), c2))
  /\ ("NAMING REPLY " = "NAMING REPLY " ->
      Str.HasPrefix "NAMING REPLY " "NAMING REPLY " = true /\
      Lookup sam "zzz.i2p" = (Err (errors_New "Failed to parse."), c2))
  /\ (forall a : I2PAddr,
         fst (Lookup sam "zzz.i2p") = Ok a ->
         13 < String.length "NAMING REPLY ").
Proof.
  intros sam c1 c2.
  apply (Lookup_short_reply sam "zzz.i2p" 27 c1 c2 "NAMING REPLY ");
    reflexivity.
Defined.

(** C9.  The lookup of [nonexistent.i2p] answered by
    [NAMING REPLY RESULT=KEY_NOT_FOUND NAME=nonexistent.i2p] (with or without
    the line feed that ends the line) fails, and the message of the error
    contains [Unable to resolve nonexistent.i2p]. *)
Theorem Lookup_key_not_found
        (sam : SAM) (k : nat) (c1 c2 : Net.Conn) (reply : string) :
  reply = "NAMING REPLY RESULT=KEY_NOT_FOUND NAME=nonexistent.i2p"
  \/ reply = "NAMING REPLY RESULT=KEY_NOT_FOUND NAME=nonexistent.i2p" ++ Str.nl ->
  Net.Write (conn sam) ("NAMING LOOKUP NAME=" ++ "nonexistent.i2p" ++ Str.nl)
  = (inl k, c1) ->
  Net.Read c1 4096 = (inl reply, c2) ->
  exists e : error,
    Lookup sam "nonexistent.i2p" = (Err e, c2)
    /\ Str.Contains (Error e) "Unable to resolve nonexistent.i2p" = true.
Proof.
  intros Hreply Hw Hr.
  exists (errors_New "Unable to resolve nonexistent.i2p").
  unfold Lookup; rewrite Hw, Hr.
  destruct Hreply as [-> | ->]; split; reflexivity.
Qed.

Lemma Lookup_key_not_found_witness :
  let reply := "NAMING REPLY RESULT=KEY_NOT_FOUND NAME=nonexistent.i2p" in
  let sam := controller reply in
  let c1 := snd (Net.Write (conn sam)
                   ("NAMING LOOKUP NAME=" ++ "nonexistent.i2p" ++ Str.nl)) in
  let c2 := snd (Net.Read c1 4096) in
  exists e : error,
    Lookup sam "nonexistent.i2p" = (Err e, c2)
    /\ Str.Contains (Error e) "Unable to resolve nonexistent.i2p" = true.
Proof.
  intros reply sam c1 c2.
  apply (Lookup_key_not_found sam 35 c1 c2 reply);
    [left; reflexivity|reflexivity|reflexivity].
Defined.

(** ** Name resolution: the [VALUE=] token *)

Lemma sliced_prefix {A : Type} (s p : string) (k : string -> Result A) :
  Str.HasPrefix s p = true ->
  sliced (Str.slice_from (String.length p) s) k
  = k (Str.drop (String.length p) s).
Proof.
  intros H; rewrite (slice_from_prefix _ _ H); reflexivity.
Qed.

(** The loop of [Lookup] returns at the first [VALUE=] token when all the
    tokens before it are ones it passes, whatever [errStr] holds by then and
    whatever follows. *)
Lemma Lookup_loop_value (name X : string) (pre post : list string) :
  forallb (Lookup_continues name) pre = true ->
  forall errStr : string,
    Lookup_loop name (pre ++ ("VALUE=" ++ X)%string :: post)%list errStr = Ok X.
Proof.
  induction pre as [|t pre IH]; intros Hpre errStr.
  - assert (Hp : Str.HasPrefix ("VALUE=" ++ X) "VALUE=" = true)
      by (apply HasPrefix_app; exists X; reflexivity).
    cbn [Lookup_loop app].
    destruct (String.eqb_spec ("VALUE=" ++ X) "RESULT=OK") as [E|_];
      [discriminate E|].
    destruct (String.eqb_spec ("VALUE=" ++ X) "RESULT=INVALID_KEY") as [E|_];
      [discriminate E|].
    destruct (String.eqb_spec ("VALUE=" ++ X) "RESULT=KEY_NOT_FOUND") as [E|_];
      [discriminate E|].
    destruct (String.eqb_spec ("VALUE=" ++ X) ("NAME=" ++ name)) as [E|_];
      [discriminate E|].
    rewrite Hp, (sliced_prefix _ "VALUE=" _ Hp); reflexivity.
  - simpl in Hpre; apply andb_true_iff in Hpre; destruct Hpre as [Ht Hpre].
    specialize (IH Hpre).
    change ((t :: pre) ++ ("VALUE=" ++ X)%string :: post)%list
      with (t :: (pre ++ ("VALUE=" ++ X)%string :: post))%list.
    cbn [Lookup_loop].
    unfold Lookup_continues in Ht; revert Ht.
    destruct (t =? "RESULT=OK"); [intros _; apply IH|].
    destruct (t =? "RESULT=INVALID_KEY"); [intros _; apply IH|].
    destruct (t =? "RESULT=KEY_NOT_FOUND"); [intros _; apply IH|].
    destruct (t =? "NAME=" ++ name); [intros _; apply IH|].
    simpl orb; intros Ht.
    assert (Hv : Str.HasPrefix t "VALUE=" = false).
    { apply HasPrefix_app in Ht; destruct Ht as [r ->]; reflexivity. }
    rewrite Hv, Ht.
    rewrite (sliced_prefix t "MESSAGE=" _ Ht); apply IH.
Qed.

(** C8, as the code has it.  [Lookup] returns the address [X] of a [VALUE=X]
    token of the reply, whatever error text the tokens before it have
    accumulated and whatever tokens follow it, provided that each token
    before it is one that the loop passes: [RESULT=OK], [RESULT=INVALID_KEY],
    [RESULT=KEY_NOT_FOUND], the echo [NAME=<name>] or a [MESSAGE=] token (so
    it is the first [VALUE=] token, and no unknown token precedes it). *)
Theorem Lookup_value
        (sam : SAM) (name : string) (k : nat) (c1 c2 : Net.Conn)
        (reply X : string) (pre post : list string) :
  Net.Write (conn sam) ("NAMING LOOKUP NAME=" ++ name ++ Str.nl)
  = (inl k, c1) ->
  Net.Read c1 4096 = (inl reply, c2) ->
  Str.HasPrefix reply "NAMING REPLY " = true ->
  Scanner.ScanWords (Str.drop 13 reply)
  = (pre ++ ("VALUE=" ++ X)%string :: post)%list ->
  forallb (Lookup_continues name) pre = true ->
  Lookup sam name = (Ok X, c2).
Proof.
  intros Hw Hr Hp Htok Hpre.
  unfold Lookup; rewrite Hw, Hr, Hp.
  apply HasPrefix_app in Hp; destruct Hp as [r ->].
  change (Str.drop 13 ("NAMING REPLY " ++ r)) with r in Htok.
  assert (Hlen : 13 < String.length ("NAMING REPLY " ++ r)).
  { destruct r as [|a r]; [destruct pre; discriminate Htok|].
    rewrite app_length; simpl; lia. }
  destruct (Nat.leb_spec (String.length ("NAMING REPLY " ++ r)) 13) as [|_];
    [lia|].
  change (Str.slice 13 (String.length ("NAMING REPLY " ++ r))
                    ("NAMING REPLY " ++ r))
    with (Str.slice_from 13 ("NAMING REPLY " ++ r)).
  rewrite slice_from_le by lia.
  change (Str.drop 13 ("NAMING REPLY " ++ r)) with r.
  cbn [orb negb sliced].
  rewrite Htok, (Lookup_loop_value name X pre post Hpre); reflexivity.
Qed.

Lemma Lookup_value_witness :
  let reply :=
      "NAMING REPLY RESULT=KEY_NOT_FOUND MESSAGE=late VALUE=abc RESULT=OK" in
  let sam := controller reply in
  let c1 := snd (Net.Write (conn sam)
                           ("NAMING LOOKUP NAME=" ++ "zzz.i2p" ++ Str.nl)) in
  let c2 := snd (Net.Read c1 4096) in
  Lookup sam "zzz.i2p" = (Ok "abc", c2).
Proof.
  intros reply sam c1 c2.
  apply (Lookup_value sam "zzz.i2p" 27 c1 c2 reply "abc"
                      ["RESULT=KEY_NOT_FOUND"; "MESSAGE=late"] ["RESULT=OK"]);
    reflexivity.
Defined.

(** C8, as stated, fails: a reply may hold a [VALUE=] token after the header
    and yet the lookup does not return its address.  After an unknown token
    the lookup fails with the parse error, and after an earlier [VALUE=]
    token it returns that earlier address. *)
Lemma Lookup_value_not_anywhere :
  let reply1 := "NAMING REPLY RESULT=OK FOO VALUE=abc" in
  let reply2 := "NAMING REPLY VALUE=abc VALUE=def" in
  (Str.HasPrefix reply1 "NAMING REPLY " = true
   /\ In "VALUE=abc" (Scanner.ScanWords (Str.drop 13 reply1))
   /\ fst (Lookup (controller reply1) "zzz.i2p")
      = Err (errors_New "Failed to parse lookup reply."))
  /\ (Str.HasPrefix reply2 "NAMING REPLY " = true
      /\ In "VALUE=def" (Scanner.ScanWords (Str.drop 13 reply2))
      /\ fst (Lookup (controller reply2) "zzz.i2p") = Ok "abc").
Proof.
  repeat split; try reflexivity; simpl; auto.
Qed.

(** ** Key generation *)

Lemma NewKeys_loop_accepts (tokens : list string) :
  forallb NewKeys_accepts tokens = true ->
  forall pub priv : string,
    NewKeys_loop tokens pub priv
    = Ok (mkI2PKeys (last_set "PUB=" tokens pub)
                    (last_set "PRIV=" tokens priv)).
Proof.
  induction tokens as [|t tokens IH]; intros Hall pub priv; [reflexivity|].
  simpl in Hall; apply andb_true_iff in Hall; destruct Hall as [Ht Hall].
  specialize (IH Hall); cbn [NewKeys_loop last_set].
  unfold NewKeys_accepts in Ht.
  destruct (String.eqb_spec t "DEST") as [->|_]; [apply IH|].
  destruct (String.eqb_spec t "REPLY") as [->|_]; [apply IH|].
  simpl in Ht.
  destruct (Str.HasPrefix t "PUB=") eqn:Hpub.
  - rewrite (sliced_prefix t "PUB=" _ Hpub).
    assert (Hpriv : Str.HasPrefix t "PRIV=" = false).
    { apply HasPrefix_app in Hpub; destruct Hpub as [r ->].
      unfold Str.HasPrefix; apply andb_false_iff; right; reflexivity. }
    rewrite Hpriv; apply IH.
  - simpl in Ht; rewrite Ht, (sliced_prefix t "PRIV=" _ Ht); apply IH.
Qed.

Lemma NewKeys_loop_rejects (tokens : list string) :
  forallb NewKeys_accepts tokens = false ->
  forall pub priv : string,
    NewKeys_loop tokens pub priv = Err (errors_New "Failed to parse keys.").
Proof.
  induction tokens as [|t tokens IH]; intros Hall pub priv; [discriminate|].
  simpl in Hall; cbn [NewKeys_loop].
  unfold NewKeys_accepts in Hall.
  destruct (t =? "DEST"); [apply IH; exact Hall|].
  destruct (t =? "REPLY"); [apply IH; exact Hall|].
  simpl in Hall.
  destruct (Str.HasPrefix t "PUB=") eqn:Hpub.
  - rewrite (sliced_prefix t "PUB=" _ Hpub); apply IH; exact Hall.
  - simpl in Hall. destruct (Str.HasPrefix t "PRIV=") eqn:Hpriv.
    + rewrite (sliced_prefix t "PRIV=" _ Hpriv); apply IH; exact Hall.
    + reflexivity.
Qed.

(** C2, as the code has it.  [NewKeys] succeeds exactly when every token of
    the reply is [DEST], [REPLY], or begins with [PUB=] or [PRIV=], whether
    or not both fields were set; each field is what follows the prefix in the
    last token that sets it, and a field that no token sets is returned
    empty.  A reply with any other token fails with the parse error. *)
Theorem NewKeys_result
        (sam : SAM) (k : nat) (c1 c2 : Net.Conn) (reply : string) :
  Net.Write (conn sam) ("DEST GENERATE" ++ Str.nl) = (inl k, c1) ->
  Net.Read c1 (2 * 4096) = (inl reply, c2) ->
  NewKeys sam
  = (if forallb NewKeys_accepts (Scanner.ScanWords reply)
     then Ok (mkI2PKeys
                (last_set "PUB=" (Scanner.ScanWords reply) EmptyString)
                (last_set "PRIV=" (Scanner.ScanWords reply) EmptyString))
     else Err (errors_New "Failed to parse keys."),
     c2).
Proof.
  intros Hw Hr; unfold NewKeys; rewrite Hw, Hr; f_equal.
  destruct (forallb NewKeys_accepts (Scanner.ScanWords reply)) eqn:Hall.
  - apply NewKeys_loop_accepts; exact Hall.
  - apply NewKeys_loop_rejects; exact Hall.
Qed.

Lemma NewKeys_result_witness :
  let reply := "DEST REPLY PRIV=xyz PUB=abc" ++ Str.nl in
  let sam := controller reply in
  let c1 := snd (Net.Write (conn sam) ("DEST GENERATE" ++ Str.nl)) in
  let c2 := snd (Net.Read c1 (2 * 4096)) in
  NewKeys sam
  = (if forallb NewKeys_accepts (Scanner.ScanWords reply)
     then Ok (mkI2PKeys
                (last_set "PUB=" (Scanner.ScanWords reply) EmptyString)
                (last_set "PRIV=" (Scanner.ScanWords reply) EmptyString))
     else Err (errors_New "Failed to parse keys."),
     c2).
Proof.
  intros reply sam c1 c2.
  apply (NewKeys_result sam 14 c1 c2 reply); reflexivity.
Defined.

(** C2, as stated, fails: a reply with a [PUB=] token and no [PRIV=] token is
    returned as a success whose private key is empty, and a reply with
    neither as a success with both fields empty. *)
Lemma NewKeys_partial_result :
  let reply1 := "DEST REPLY PUB=abc" ++ Str.nl in
  let reply2 := "DEST REPLY" ++ Str.nl in
  (existsb (fun t => Str.HasPrefix t "PRIV=") (Scanner.ScanWords reply1)
   = false
   /\ fst (NewKeys (controller reply1)) = Ok (mkI2PKeys "abc" EmptyString))
  /\ (existsb (fun t => Str.HasPrefix t "PUB=") (Scanner.ScanWords reply2)
      = false
      /\ fst (NewKeys (controller reply2))
         = Ok (mkI2PKeys EmptyString EmptyString)).
Proof.
  repeat split; reflexivity.
Qed.

(** ** Session negotiation: the first step *)

(** C5, as the code has it.  When the first step of the negotiation fails
    (the dial, or the handshake on the new connection), [newGenericSession]
    returns the fixed error [Unable to create new streaming tunnel.] in place
    of the error of the attempt, and leaves the connection, if one was
    opened, as the attempt left it. *)
Theorem newGenericSession_first_step_error
        (net_Dial : string -> string -> Net.Conn + error)
        (I2PKeys_String : I2PKeys -> string)
        (sam : SAM) (style id : string) (keys : I2PKeys)
        (options extras : list string)
        (e : error) (opened : option Net.Conn) :
  NewSAM net_Dial (address sam) = (Err e, opened) ->
  newGenericSession net_Dial I2PKeys_String sam style id keys options extras
  = (Err (errors_New "Unable to create new streaming tunnel."), opened).
Proof.
  intros H; unfold newGenericSession; rewrite H; reflexivity.
Qed.

Lemma newGenericSession_first_step_error_witness :
  newGenericSession dial_refused I2PKeys_concat (controller EmptyString)
                    "STREAM" "tunnel" sample_keys [] []
  = (Err (errors_New "Unable to create new streaming tunnel."), None).
Proof.
  apply (newGenericSession_first_step_error
           dial_refused I2PKeys_concat (controller EmptyString)
           "STREAM" "tunnel" sample_keys [] []
           (net_Error "connection refused") None).
  reflexivity.
Defined.

(** C5, as stated, fails: the error returned is not the one of the attempt.
    A refused dial and a handshake answered with the no-version line both
    end in the same fixed error. *)
Lemma newGenericSession_hides_first_step_error :
  let sam := controller EmptyString in
  let nover := fresh [] [Net.Deliver hello_NOVERSION] in
  (fst (NewSAM dial_refused (address sam))
   = Err (net_Error "connection refused")
   /\ fst (newGenericSession dial_refused I2PKeys_concat sam
                             "STREAM" "tunnel" sample_keys [] [])
      = Err (errors_New "Unable to create new streaming tunnel.")
   /\ errors_New "Unable to create new streaming tunnel."
      <> net_Error "connection refused")
  /\ (fst (NewSAM (dial_to nover) (address sam))
      = Err (errors_New "That SAM bridge does not support SAMv3.")
      /\ fst (newGenericSession (dial_to nover) I2PKeys_concat sam
                                "STREAM" "tunnel" sample_keys [] [])
         = Err (errors_New "Unable to create new streaming tunnel.")
      /\ errors_New "Unable to create new streaming tunnel."
         <> errors_New "That SAM bridge does not support SAMv3.").
Proof.
  repeat split; try reflexivity; discriminate.
Qed.

(** ** Session negotiation: the write loop *)

(** What one call of [Write] that reports no error does to the
    connection. *)
Lemma Write_accepts (c c' : Net.Conn) (p : string) (n : nat) :
  Net.Write c p = (inl n, c') ->
  n <= String.length p
  /\ Net.sent c' = Net.sent c ++ Str.take n p
  /\ Net.nwrites c' = S (Net.nwrites c)
  /\ Net.closed c' = Net.closed c
  /\ Net.to_read c' = Net.to_read c
  /\ Net.to_write c' = tl (Net.to_write c).
Proof.
  unfold Net.Write; destruct (Net.to_write c) as [|[k|e] ws]; intros H;
    inversion H; subst; clear H; simpl.
  - rewrite take_all by lia; repeat split; lia.
  - repeat split; lia.
Qed.

(** What one call of [Write] that fails does to the connection. *)
Lemma Write_fails (c c' : Net.Conn) (p : string) (e : error) :
  Net.Write c p = (inr e, c') ->
  Net.sent c' = Net.sent c
  /\ Net.nwrites c' = S (Net.nwrites c)
  /\ Net.closed c' = Net.closed c
  /\ Net.to_read c' = Net.to_read c
  /\ hd_error (Net.to_write c) = Some (Net.WriteFail e).
Proof.
  unfold Net.Write; destruct (Net.to_write c) as [|[k|e'] ws]; intros H;
    inversion H; subst; clear H; simpl; repeat split.
Qed.

(** The three ways out of the write loop, entered with [m] bytes of [scmsg]
    written and [left] calls of [Write] allowed: the whole command is written
    and the connection is left open as it was; or the calls are used up, each
    having reported no error, with the command still incomplete; or a call
    has failed.  In each the bytes that the transport took during the loop
    continue [scmsg] from byte [m] on, without a gap or a repeat. *)
Lemma write_loop_outcome (scmsg : string) (left : nat) :
  forall (m : nat) (c : Net.Conn),
    m <= String.length scmsg ->
    let r := fst (write_loop left scmsg m c) in
    let c' := snd (write_loop left scmsg m c) in
    Net.nwrites c' <= Net.nwrites c + left
    /\ Net.to_read c' = Net.to_read c
    /\ exists m' : nat,
        m <= m' <= String.length scmsg
        /\ Net.sent c' = Net.sent c ++ Str.take (m' - m) (Str.drop m scmsg)
        /\ ((r = None /\ m' = String.length scmsg
             /\ Net.closed c' = Net.closed c)
            \/ (r = Some (errors_New "writing to SAM failed")
                /\ m' < String.length scmsg
                /\ Net.nwrites c' = Net.nwrites c + left
                /\ Net.closed c' = true)
            \/ (exists e : error,
                   r = Some e
                   /\ In (Net.WriteFail e) (firstn left (Net.to_write c))
                   /\ Net.closed c' = true)).
Proof.
  induction left as [|left IH]; intros m c Hm; cbn [write_loop];
    destruct (Nat.eqb_spec m (String.length scmsg)) as [Heq|Hne].
  - simpl; repeat split; try lia. exists m; rewrite Nat.sub_diag; simpl.
    rewrite app_empty_r; repeat split; try lia. left; auto.
  - simpl; repeat split; try lia. exists m; rewrite Nat.sub_diag; simpl.
    rewrite app_empty_r; repeat split; try lia. right; left.
    repeat split; lia.
  - simpl; repeat split; try lia. exists m; rewrite Nat.sub_diag; simpl.
    rewrite app_empty_r; repeat split; try lia. left; auto.
  - destruct (Net.Write c (Str.drop m scmsg)) as [[n|e] c1] eqn:Hw.
    + apply Write_accepts in Hw.
      destruct Hw as (Hn & Hsent & Hnw & Hcl & Hrd & Htw).
      rewrite drop_length in Hn.
      destruct (IH (m + n) c1 ltac:(lia)) as (Hb & Hr' & m' & Hm' & Hs & Hcase).
      split; [lia|]. split; [congruence|].
      exists m'; split; [lia|]. split.
      * rewrite Hs, Hsent, app_assoc; f_equal.
        replace (m' - m) with (n + (m' - (m + n))) by lia.
        rewrite <- take_take_drop, drop_drop; reflexivity.
      * destruct Hcase as [(H1 & H2 & H3)|[(H1 & H2 & H3 & H4)|(e & H1 & H2 & H3)]].
        -- left; repeat split; auto; congruence.
        -- right; left; repeat split; auto; lia.
        -- right; right; exists e; repeat split; auto.
           rewrite Htw in H2. destruct (Net.to_write c) as [|w ws]; simpl in *.
           ++ destruct left; simpl in H2; contradiction.
           ++ right; exact H2.
    + apply Write_fails in Hw. destruct Hw as (Hsent & Hnw & Hcl & Hrd & Hhd).
      simpl. split; [lia|]. split; [exact Hrd|].
      exists m; rewrite Nat.sub_diag; simpl; rewrite app_empty_r.
      split; [lia|]. split; [exact Hsent|].
      right; right; exists e; repeat split.
      destruct (Net.to_write c) as [|w ws]; [discriminate|].
      injection Hhd as ->; left; reflexivity.
Qed.

(** One turn of the write loop: while the command is incomplete and a call
    is allowed, [Write] is given the command from byte [m] on, where [m]
    counts the bytes taken so far. *)
Lemma write_loop_step (left : nat) (scmsg : string) (m : nat)
      (c : Net.Conn) :
  m < String.length scmsg ->
  write_loop (S left) scmsg m c
  = match Net.Write c (Str.drop m scmsg) with
    | (inr err, c1) => (Some err, Net.Close c1)
    | (inl n, c1) => write_loop left scmsg (m + n) c1
    end.
Proof.
  intros Hm; cbn [write_loop].
  destruct (Nat.eqb_spec m (String.length scmsg)) as [E|_]; [lia|].
  reflexivity.
Qed.

(** With the whole command written the loop is over, with no error. *)
Lemma write_loop_done (left : nat) (scmsg : string) (c : Net.Conn) :
  write_loop left scmsg (String.length scmsg) c = (None, c).
Proof.
  destruct left; cbn [write_loop]; rewrite Nat.eqb_refl; reflexivity.
Qed.

Lemma Write_Accept (c : Net.Conn) (p : string) (k : nat)
      (ws : list Net.WriteStep) :
  Net.to_write c = Net.Accept k :: ws ->
  Net.Write c p
  = (inl (Nat.min k (String.length p)),
     Net.mkConn ws (Net.to_read c)
                (Net.sent c ++ Str.take (Nat.min k (String.length p)) p)
                (S (Net.nwrites c)) (Net.closed c)).
Proof. intros H; unfold Net.Write; rewrite H; reflexivity. Qed.

Lemma Write_at_end (c : Net.Conn) (p : string) :
  Net.to_write c = [] ->
  Net.Write c p
  = (inl (String.length p),
     Net.mkConn [] (Net.to_read c) (Net.sent c ++ p) (S (Net.nwrites c))
                (Net.closed c)).
Proof. intros H; unfold Net.Write; rewrite H; reflexivity. Qed.

Lemma Write_WriteFail (c : Net.Conn) (p : string) (e : error)
      (ws : list Net.WriteStep) :
  Net.to_write c = Net.WriteFail e :: ws ->
  Net.Write c p
  = (inr e,
     Net.mkConn ws (Net.to_read c) (Net.sent c) (S (Net.nwrites c))
                (Net.closed c)).
Proof. intros H; unfold Net.Write; rewrite H; reflexivity. Qed.

(** The loop over partial writes.  While the transport takes [ks] bytes call
    after call and these do not yet make up the command, the loop goes on
    from call to call: after them it stands at the byte that follows the
    bytes taken, the transport has received these bytes of the command, in
    order and once each, and one call was made for each element of [ks]. *)
Lemma write_loop_accepts (scmsg : string) (ks : list nat) :
  forall (left m : nat) (c : Net.Conn) (tail : list Net.WriteStep),
    Net.to_write c = (map Net.Accept ks ++ tail)%list ->
    m + list_sum ks < String.length scmsg ->
    write_loop (List.length ks + left) scmsg m c
    = write_loop left scmsg (m + list_sum ks)
                 (Net.mkConn tail (Net.to_read c)
                             (Net.sent c
                                ++ Str.take (list_sum ks) (Str.drop m scmsg))
                             (Net.nwrites c + List.length ks)
                             (Net.closed c)).
Proof.
  induction ks as [|k ks IH]; intros left m c tail Hto Hsum.
  - cbn [List.length map List.app Nat.add] in *.
    change (list_sum []) with 0.
    rewrite !Nat.add_0_r; destruct c as [ws rs s n b]; simpl in *; subst ws.
    replace (Str.take 0 (Str.drop m scmsg)) with EmptyString
      by (destruct (Str.drop m scmsg); reflexivity).
    rewrite app_empty_r; reflexivity.
  - cbn [List.length map List.app Nat.add] in *.
    change (list_sum (k :: ks)) with (k + list_sum ks) in *.
    rewrite write_loop_step by lia.
    rewrite (Write_Accept c _ k _ Hto), drop_length.
    rewrite Nat.min_l by lia.
    set (c1 := Net.mkConn (map Net.Accept ks ++ tail) (Net.to_read c)
                          (Net.sent c ++ Str.take k (Str.drop m scmsg))
                          (S (Net.nwrites c)) (Net.closed c)).
    rewrite (IH left (m + k) c1 tail eq_refl) by lia.
    unfold c1; cbn [Net.to_read Net.sent Net.nwrites Net.closed].
    f_equal; [lia|].
    f_equal; [|lia].
    rewrite app_assoc; f_equal.
    rewrite <- drop_drop; apply take_take_drop.
Qed.

(** The command gets through: when the transport takes the bytes [ks] and
    then [k] more, call after call, within 15 calls, and [k] is the first
    amount to complete the command, the loop ends with no error after these
    calls, the transport has received the command, whole and once, and the
    connection is as open as it was. *)
Lemma write_loop_completes (scmsg : string) (c : Net.Conn) (ks : list nat)
      (k : nat) (tail : list Net.WriteStep) :
  Net.to_write c = (map Net.Accept ks ++ Net.Accept k :: tail)%list ->
  List.length ks < 15 ->
  list_sum ks < String.length scmsg <= list_sum ks + k ->
  write_loop 15 scmsg 0 c
  = (None,
     Net.mkConn tail (Net.to_read c) (Net.sent c ++ scmsg)
                (Net.nwrites c + List.length ks + 1) (Net.closed c)).
Proof.
  intros Hto Hn [Hlt Hge].
  replace 15 with (List.length ks + S (14 - List.length ks)) by lia.
  rewrite (write_loop_accepts scmsg ks _ 0 c _ Hto) by exact Hlt.
  cbn [Nat.add]; change (Str.drop 0 scmsg) with scmsg.
  rewrite write_loop_step by exact Hlt.
  erewrite Write_Accept by reflexivity; rewrite drop_length.
  rewrite Nat.min_r by lia.
  replace (list_sum ks + (String.length scmsg - list_sum ks))
    with (String.length scmsg) by lia.
  rewrite write_loop_done.
  cbn [Net.to_read Net.sent Net.nwrites Net.closed].
  f_equal; f_equal; [|lia].
  rewrite app_assoc; f_equal.
  rewrite (take_all _ (Str.drop (list_sum ks) scmsg))
    by (rewrite drop_length; lia).
  apply take_drop.
Qed.

(** The command gets through as well over a transport that, after the bytes
    [ks], takes all it is given. *)
Lemma write_loop_completes_at_end (scmsg : string) (c : Net.Conn)
      (ks : list nat) :
  Net.to_write c = map Net.Accept ks ->
  List.length ks < 15 ->
  list_sum ks < String.length scmsg ->
  write_loop 15 scmsg 0 c
  = (None,
     Net.mkConn [] (Net.to_read c) (Net.sent c ++ scmsg)
                (Net.nwrites c + List.length ks + 1) (Net.closed c)).
Proof.
  intros Hto Hn Hlt.
  replace 15 with (List.length ks + S (14 - List.length ks)) by lia.
  rewrite (write_loop_accepts scmsg ks _ 0 c [])
    by (try exact Hlt; rewrite Hto; symmetry; apply List.app_nil_r).
  cbn [Nat.add]; change (Str.drop 0 scmsg) with scmsg.
  rewrite write_loop_step by exact Hlt.
  erewrite Write_at_end by reflexivity; rewrite drop_length.
  replace (list_sum ks + (String.length scmsg - list_sum ks))
    with (String.length scmsg) by lia.
  rewrite write_loop_done.
  cbn [Net.to_read Net.sent Net.nwrites Net.closed].
  f_equal; f_equal; [|lia].
  rewrite app_assoc; f_equal; apply take_drop.
Qed.

(** The loop gives up: when the transport takes, at 15 calls with no error,
    bytes [ks] that do not make up the command, the loop ends after these 15
    calls with the error [writing to SAM failed] and the connection closed;
    the transport has received the first bytes of the command, as many as it
    took. *)
Lemma write_loop_gives_up (scmsg : string) (c : Net.Conn) (ks : list nat)
      (tail : list Net.WriteStep) :
  Net.to_write c = (map Net.Accept ks ++ tail)%list ->
  List.length ks = 15 ->
  list_sum ks < String.length scmsg ->
  write_loop 15 scmsg 0 c
  = (Some (errors_New "writing to SAM failed"),
     Net.mkConn tail (Net.to_read c)
                (Net.sent c ++ Str.take (list_sum ks) scmsg)
                (Net.nwrites c + 15) true).
Proof.
  intros Hto Hn Hlt.
  replace 15 with (List.length ks + 0) at 1 by lia.
  rewrite (write_loop_accepts scmsg ks 0 0 c tail Hto) by exact Hlt.
  cbn [Nat.add write_loop]; change (Str.drop 0 scmsg) with scmsg.
  destruct (Nat.eqb_spec (list_sum ks) (String.length scmsg)) as [E|_];
    [lia|].
  rewrite Hn; reflexivity.
Qed.

(** The loop breaks off: when the transport fails at a call, after bytes
    [ks] taken with no error that do not make up the command, the loop ends
    at that call with the error of the transport and the connection
    closed. *)
Lemma write_loop_breaks (scmsg : string) (c : Net.Conn) (ks : list nat)
      (e : error) (tail : list Net.WriteStep) :
  Net.to_write c = (map Net.Accept ks ++ Net.WriteFail e :: tail)%list ->
  List.length ks < 15 ->
  list_sum ks < String.length scmsg ->
  write_loop 15 scmsg 0 c
  = (Some e,
     Net.mkConn tail (Net.to_read c)
                (Net.sent c ++ Str.take (list_sum ks) scmsg)
                (Net.nwrites c + List.length ks + 1) true).
Proof.
  intros Hto Hn Hlt.
  replace 15 with (List.length ks + S (14 - List.length ks)) by lia.
  rewrite (write_loop_accepts scmsg ks _ 0 c _ Hto) by exact Hlt.
  cbn [Nat.add]; change (Str.drop 0 scmsg) with scmsg.
  rewrite write_loop_step by exact Hlt.
  erewrite Write_WriteFail by reflexivity.
  unfold Net.Close; cbn [Net.to_write Net.to_read Net.sent Net.nwrites].
  f_equal; f_equal; lia.
Qed.

(** C6.  The write loop of [newGenericSession] always ends, after at most 15
    calls of [Write], and tolerates partial writes by resuming from the
    first unwritten byte: each call is given the command from the byte that
    follows the bytes taken so far, so that the bytes the transport has
    taken are always a prefix of the command.  What the transport does
    decides the outcome.  If within 15 calls it has taken the whole command,
    however the bytes are spread over the calls, the loop ends with no error
    at the call that completes the command, the transport has received the
    command whole and once, and the connection is as open as it was.  If it
    takes, at 15 calls with no error, bytes that do not make up the command,
    the loop closes the connection and fails with [writing to SAM failed].
    If a call fails before the command is complete, the loop closes the
    connection and fails with the error of that call.
    [newGenericSession] returns the error of the loop with the closed
    connection. *)
Theorem write_loop_bounded :
  (forall (scmsg : string) (c : Net.Conn),
      let r := fst (write_loop 15 scmsg 0 c) in
      let c' := snd (write_loop 15 scmsg 0 c) in
      Net.nwrites c' <= Net.nwrites c + 15
      /\ exists m : nat,
          m <= String.length scmsg
          /\ Net.sent c' = Net.sent c ++ Str.take m scmsg
          /\ ((r = None /\ m = String.length scmsg
               /\ Net.sent c' = Net.sent c ++ scmsg
               /\ Net.closed c' = Net.closed c)
              \/ (r = Some (errors_New "writing to SAM failed")
                  /\ m < String.length scmsg
                  /\ Net.nwrites c' = Net.nwrites c + 15
                  /\ Net.closed c' = true)
              \/ (exists e : error,
                     r = Some e
                     /\ In (Net.WriteFail e) (firstn 15 (Net.to_write c))
                     /\ Net.closed c' = true)))
  /\ (forall (net_Dial : string -> string -> Net.Conn + error)
             (I2PKeys_String : I2PKeys -> string)
             (sam sam2 : SAM) (style id : string) (keys : I2PKeys)
             (options extras : list string)
             (opened : option Net.Conn) (e : error) (c' : Net.Conn),
         NewSAM net_Dial (address sam) = (Ok sam2, opened) ->
         write_loop 15 (scmsg I2PKeys_String style id keys options extras) 0
                    (conn sam2) = (Some e, c') ->
         newGenericSession net_Dial I2PKeys_String sam style id keys options
                           extras = (Err e, Some c')
         /\ Net.closed c' = true)
  /\ (forall (left : nat) (scmsg : string) (m : nat) (c : Net.Conn),
         m < String.length scmsg ->
         write_loop (S left) scmsg m c
         = match Net.Write c (Str.drop m scmsg) with
           | (inr err, c1) => (Some err, Net.Close c1)
           | (inl n, c1) => write_loop left scmsg (m + n) c1
           end)
  /\ (forall (scmsg : string) (c : Net.Conn) (ks : list nat) (k : nat)
             (tail : list Net.WriteStep),
         Net.to_write c = (map Net.Accept ks ++ Net.Accept k :: tail)%list ->
         List.length ks < 15 ->
         list_sum ks < String.length scmsg <= list_sum ks + k ->
         write_loop 15 scmsg 0 c
         = (None,
            Net.mkConn tail (Net.to_read c) (Net.sent c ++ scmsg)
                       (Net.nwrites c + List.length ks + 1) (Net.closed c)))
  /\ (forall (scmsg : string) (c : Net.Conn) (ks : list nat),
         Net.to_write c = map Net.Accept ks ->
         List.length ks < 15 ->
         list_sum ks < String.length scmsg ->
         write_loop 15 scmsg 0 c
         = (None,
            Net.mkConn [] (Net.to_read c) (Net.sent c ++ scmsg)
                       (Net.nwrites c + List.length ks + 1) (Net.closed c)))
  /\ (forall (scmsg : string) (c : Net.Conn) (ks : list nat)
             (tail : list Net.WriteStep),
         Net.to_write c = (map Net.Accept ks ++ tail)%list ->
         List.length ks = 15 ->
         list_sum ks < String.length scmsg ->
         write_loop 15 scmsg 0 c
         = (Some (errors_New "writing to SAM failed"),
            Net.mkConn tail (Net.to_read c)
                       (Net.sent c ++ Str.take (list_sum ks) scmsg)
                       (Net.nwrites c + 15) true))
  /\ (forall (scmsg : string) (c : Net.Conn) (ks : list nat) (e : error)
             (tail : list Net.WriteStep),
         Net.to_write c
         = (map Net.Accept ks ++ Net.WriteFail e :: tail)%list ->
         List.length ks < 15 ->
         list_sum ks < String.length scmsg ->
         write_loop 15 scmsg 0 c
         = (Some e,
            Net.mkConn tail (Net.to_read c)
                       (Net.sent c ++ Str.take (list_sum ks) scmsg)
                       (Net.nwrites c + List.length ks + 1) true)).
Proof.
  split; [|split; [|split; [|split; [|split; [|split]]]]].
  - intros scmsg0 c r c'.
    destruct (write_loop_outcome scmsg0 15 0 c ltac:(lia))
      as (Hb & _ & m & Hm & Hs & Hcase).
    fold r in Hcase; fold c' in Hb, Hs, Hcase.
    rewrite Nat.sub_0_r in Hs; change (Str.drop 0 scmsg0) with scmsg0 in Hs.
    split; [exact Hb|]. exists m; split; [lia|]. split; [exact Hs|].
    destruct Hcase as [(H1 & H2 & H3)|[H|H]]; [left|right; left|right; right];
      auto.
    repeat split; auto. rewrite Hs, H2, take_all by lia; reflexivity.
  - intros net_Dial I2PKeys_String sam sam2 style id keys options extras
           opened e c' Hsam Hloop.
    split.
    + unfold newGenericSession; rewrite Hsam, Hloop; reflexivity.
    + pose proof (write_loop_outcome
                    (scmsg I2PKeys_String style id keys options extras)
                    15 0 (conn sam2) ltac:(lia)) as H.
      rewrite Hloop in H; simpl in H.
      destruct H as (_ & _ & m & _ & _ & [(H1 & _)|[(_ & _ & _ & H)|(e' & _ & _ & H)]]);
        [discriminate|exact H|exact H].
  - exact write_loop_step.
  - exact write_loop_completes.
  - exact write_loop_completes_at_end.
  - exact write_loop_gives_up.
  - exact write_loop_breaks.
Qed.

(** The bound at work.  A transport that takes one byte at each call uses up
    the 15 calls: the negotiation fails with [writing to SAM failed] after
    the handshake write and 15 more, the connection closed.  A transport
    that takes one byte at each of 14 calls and the rest at the next lets
    the command through with the 15th call. *)
Example write_loop_at_the_bound :
  let slow := fresh (Net.Accept 30 :: repeat (Net.Accept 1) 20)
                    [Net.Deliver hello_OK] in
  let late := fresh (Net.Accept 30 :: repeat (Net.Accept 1) 14)
                    [Net.Deliver hello_OK;
                     Net.Deliver (session_OK ++ "PUBKPRIVK" ++ Str.nl)] in
  let r1 := newGenericSession (dial_to slow) I2PKeys_concat
                              (controller EmptyString)
                              "STREAM" "tunnel" sample_keys [] [] in
  let r2 := newGenericSession (dial_to late) I2PKeys_concat
                              (controller EmptyString)
                              "STREAM" "tunnel" sample_keys [] [] in
  (fst r1 = Err (errors_New "writing to SAM failed")
   /\ option_map Net.nwrites (snd r1) = Some 16
   /\ option_map Net.closed (snd r1) = Some true
   /\ option_map Net.sent (snd r1)
      = Some ("HELLO VERSION MIN=3.0 MAX=3.0" ++ Str.nl ++ "SESSION CREATE "))
  /\ (option_map Ok (snd r2) = Some (fst r2)
      /\ option_map Net.nwrites (snd r2) = Some 16
      /\ option_map Net.closed (snd r2) = Some false
      /\ option_map Net.sent (snd r2)
         = Some ("HELLO VERSION MIN=3.0 MAX=3.0" ++ Str.nl
                   ++ scmsg I2PKeys_concat "STREAM" "tunnel" sample_keys
                        [] [])).
Proof.
  vm_compute; repeat split; reflexivity.
Qed.

(** ** The word scanner on ASCII text *)

Lemma graphic_rune (a : ascii) (r : string) :
  graphic a = true ->
  Utf8.DecodeRune (String a r) = (N_of_ascii a, 1)
  /\ Utf8.isSpace (N_of_ascii a) = false.
Proof.
  unfold graphic; rewrite andb_true_iff, !N.ltb_lt; intros [Hlo Hhi].
  unfold Utf8.DecodeRune, Utf8.first, Utf8.isSpace.
  destruct (N.ltb_spec (N_of_ascii a) 0x80) as [_|]; [|lia].
  destruct (N.leb_spec (N_of_ascii a) 0xFF) as [_|]; [|lia].
  split; [reflexivity|].
  repeat (apply orb_false_iff; split); apply N.eqb_neq; lia.
Qed.

Lemma words_unfold (a : ascii) (rest : string) (sp : bool) (cur : string) :
  Scanner.words (String a rest) 0 sp cur
  = let '(r, w) := Utf8.DecodeRune (String a rest) in
    if Utf8.isSpace r
    then (Scanner.flush cur ++ Scanner.words rest (pred w) true EmptyString)%list
    else Scanner.words rest (pred w) false (cur ++ String a EmptyString).
Proof. reflexivity. Qed.

(** Between two runes the scanner does not look at what the last one was. *)
Lemma words_between (data : string) (sp sp' : bool) (cur : string) :
  Scanner.words data 0 sp cur = Scanner.words data 0 sp' cur.
Proof. destruct data; reflexivity. Qed.

(** The scanner adds a run of printable bytes to the word it collects. *)
Lemma words_word (w rest : string) :
  word w = true ->
  forall (sp : bool) (cur : string),
    Scanner.words (w ++ rest) 0 sp cur = Scanner.words rest 0 sp (cur ++ w).
Proof.
  induction w as [|a w IH]; intros Hw sp cur.
  - simpl; rewrite app_empty_r; reflexivity.
  - simpl in Hw; apply andb_true_iff in Hw; destruct Hw as [Ha Hw].
    change (String a w ++ rest) with (String a (w ++ rest)).
    rewrite words_unfold.
    destruct (graphic_rune a (w ++ rest) Ha) as [-> ->].
    cbn [pred]; rewrite (IH Hw), app_assoc.
    apply words_between.
Qed.

(** A space or a line feed ends the word collected so far. *)
Lemma words_blank (a : ascii) (rest : string) (sp : bool) (cur : string) :
  a = " "%char \/ a = ascii_of_nat 10 ->
  Scanner.words (String a rest) 0 sp cur
  = (Scanner.flush cur ++ Scanner.words rest 0 true EmptyString)%list.
Proof.
  intros [-> | ->]; reflexivity.
Qed.

Lemma flush_token (w : string) : token w = true -> Scanner.flush w = [w].
Proof. destruct w; [discriminate|reflexivity]. Qed.

Lemma token_word (w : string) : token w = true -> word w = true.
Proof. destruct w; [discriminate|auto]. Qed.

(** A token followed by a space is the next word scanned. *)
Lemma words_token_space (w rest : string) (sp : bool) :
  token w = true ->
  Scanner.words (w ++ " " ++ rest) 0 sp EmptyString
  = w :: Scanner.words rest 0 true EmptyString.
Proof.
  intros Hw; rewrite (words_word w _ (token_word w Hw)).
  change (" " ++ rest) with (String " " rest).
  rewrite (words_blank " " rest sp _ (or_introl eq_refl)).
  simpl append; rewrite (flush_token w Hw); reflexivity.
Qed.

(** A token at the end of the text, or before the line feed that ends it, is
    the last word scanned. *)
Lemma words_token_end (w tail : string) (sp : bool) :
  token w = true ->
  tail = EmptyString \/ tail = Str.nl ->
  Scanner.words (w ++ tail) 0 sp EmptyString = [w].
Proof.
  intros Hw Htail; rewrite (words_word w _ (token_word w Hw)); simpl append.
  destruct Htail as [-> | ->].
  - simpl; apply flush_token; exact Hw.
  - unfold Str.nl; rewrite (words_blank _ _ sp _ (or_intror eq_refl)).
    rewrite (flush_token w Hw); reflexivity.
Qed.

Lemma word_app (s t : string) :
  word s = true -> word t = true -> word (s ++ t) = true.
Proof.
  induction s as [|a s IH]; simpl; auto.
  rewrite !andb_true_iff; intros [Ha Hs] Ht; auto.
Qed.

Lemma token_field (p s : string) :
  token p = true -> word s = true -> token (p ++ s) = true.
Proof.
  intros Hp Hs; pose proof (word_app p s (token_word p Hp) Hs) as H.
  destruct p; [discriminate|exact H].
Qed.

(** ** The session-create command *)

Lemma optStr_from (options : list string) (acc : string) :
  fold_left (fun optStr opt => optStr ++ "OPTION=" ++ opt ++ " ") options acc
  = acc ++ option_tokens options.
Proof.
  revert acc; induction options as [|opt options IH]; intros acc;
    cbn [fold_left option_tokens].
  - symmetry; apply app_empty_r.
  - rewrite IH, !app_assoc; reflexivity.
Qed.

Lemma optStr_tokens (options : list string) :
  optStr options = option_tokens options.
Proof. unfold optStr; rewrite optStr_from; reflexivity. Qed.

Lemma Join_from (sep : string) (rest : list string) (e acc : string) :
  fold_left (fun b s => b ++ sep ++ s) rest (acc ++ e)
  = acc ++ String.concat sep (e :: rest).
Proof.
  revert e acc; induction rest as [|x rest IH]; intros e acc.
  - reflexivity.
  - cbn [fold_left]. rewrite <- !app_assoc.
    replace ((acc ++ e) ++ sep ++ x) with ((acc ++ e ++ sep) ++ x)
      by (rewrite !app_assoc; reflexivity).
    rewrite IH; cbn [String.concat]; rewrite !app_assoc; reflexivity.
Qed.

(** [strings.Join] puts the separator between the elements, and nowhere
    else. *)
Lemma Join_concat (elems : list string) (sep : string) :
  Str.Join elems sep = String.concat sep elems.
Proof.
  destruct elems as [|e rest]; [reflexivity|].
  exact (Join_from sep rest e EmptyString).
Qed.

Lemma words_options (options : list string) (rest : string) (sp : bool) :
  forallb word options = true ->
  Scanner.words (option_tokens options ++ rest) 0 sp EmptyString
  = (map (fun opt => ("OPTION=" ++ opt)%string) options
         ++ Scanner.words rest 0 true EmptyString)%list.
Proof.
  revert sp; induction options as [|opt options IH]; intros sp Hall.
  - apply words_between.
  - simpl in Hall; apply andb_true_iff in Hall; destruct Hall as [Ho Hall].
    cbn [option_tokens map List.app].
    replace (("OPTION=" ++ opt ++ " " ++ option_tokens options) ++ rest)
      with (("OPTION=" ++ opt) ++ " " ++ option_tokens options ++ rest)
      by (rewrite !app_assoc; reflexivity).
    rewrite words_token_space by (apply token_field; [reflexivity|exact Ho]).
    rewrite (IH true Hall); reflexivity.
Qed.

Lemma words_extras (extras : list string) (tail : string) (sp : bool) :
  forallb token extras = true ->
  tail = EmptyString \/ tail = Str.nl ->
  Scanner.words (String.concat " " extras ++ tail) 0 sp EmptyString = extras.
Proof.
  intros Hall Htail; revert sp; induction extras as [|x extras IH]; intros sp.
  - destruct Htail as [-> | ->]; reflexivity.
  - simpl in Hall; apply andb_true_iff in Hall; destruct Hall as [Hx Hall].
    destruct extras as [|y extras].
    + cbn [String.concat]; apply words_token_end; assumption.
    + change (String.concat " " (x :: y :: extras))
        with (x ++ " " ++ String.concat " " (y :: extras)).
      rewrite !app_assoc, words_token_space by exact Hx.
      rewrite (IH Hall true); reflexivity.
Qed.

(** The words of a command line built from tokens: the line is scanned back
    into the tokens it was built from, with or without the line feed. *)
Lemma words_command (style id dest : string) (options extras : list string)
      (tail : string) :
  word style = true -> word id = true -> word dest = true ->
  forallb word options = true -> forallb token extras = true ->
  tail = EmptyString \/ tail = Str.nl ->
  Scanner.ScanWords
    ("SESSION CREATE STYLE=" ++ style ++ " ID=" ++ id ++ " DESTINATION="
       ++ dest ++ " " ++ option_tokens options
       ++ String.concat " " extras ++ tail)
  = command_tokens style id dest options extras.
Proof.
  intros Hstyle Hid Hdest Hopts Hextras Htail.
  unfold Scanner.ScanWords, command_tokens.
  change ("SESSION CREATE STYLE=" ++ style ++ " ID=" ++ id ++ " DESTINATION="
            ++ dest ++ " " ++ option_tokens options
            ++ String.concat " " extras ++ tail)
    with ("SESSION" ++ " " ++ "CREATE" ++ " " ++ ("STYLE=" ++ style) ++ " "
            ++ ("ID=" ++ id) ++ " " ++ ("DESTINATION=" ++ dest) ++ " "
            ++ option_tokens options ++ String.concat " " extras ++ tail).
  rewrite (words_token_space "SESSION") by reflexivity.
  rewrite (words_token_space "CREATE") by reflexivity.
  rewrite (words_token_space ("STYLE=" ++ style))
    by (apply token_field; [reflexivity|exact Hstyle]).
  rewrite (words_token_space ("ID=" ++ id))
    by (apply token_field; [reflexivity|exact Hid]).
  rewrite (words_token_space ("DESTINATION=" ++ dest))
    by (apply token_field; [reflexivity|exact Hdest]).
  rewrite (words_options options _ true Hopts).
  rewrite (words_extras extras tail true Hextras Htail); reflexivity.
Qed.

(** C7.  For a style, an id, a keys serialization and options that hold
    printable ASCII bytes and no space, and extras that are non-empty such
    strings, the session-create command is the text of the fields, the
    [OPTION=] tokens and the extras followed by one line feed, and its words
    are, in this order: [SESSION], [CREATE], the fields [STYLE=], [ID=] and
    [DESTINATION=], one token [OPTION=<v>] for each option [v] in the order
    given, and then the extras as given.  The words all stand before the
    line feed that ends the command. *)
Theorem scmsg_tokens
        (I2PKeys_String : I2PKeys -> string)
        (style id : string) (keys : I2PKeys) (options extras : list string) :
  word style = true -> word id = true ->
  word (I2PKeys_String keys) = true ->
  forallb word options = true -> forallb token extras = true ->
  let body :=
      "SESSION CREATE STYLE=" ++ style ++ " ID=" ++ id ++ " DESTINATION="
        ++ I2PKeys_String keys ++ " " ++ option_tokens options
        ++ String.concat " " extras in
  scmsg I2PKeys_String style id keys options extras = body ++ Str.nl
  /\ Scanner.ScanWords (scmsg I2PKeys_String style id keys options extras)
     = command_tokens style id (I2PKeys_String keys) options extras
  /\ Scanner.ScanWords body
     = command_tokens style id (I2PKeys_String keys) options extras.
Proof.
  intros Hstyle Hid Hdest Hopts Hextras body.
  assert (E : scmsg I2PKeys_String style id keys options extras
              = body ++ Str.nl).
  { unfold scmsg, body; rewrite optStr_tokens, Join_concat, !app_assoc.
    reflexivity. }
  split; [exact E|split].
  - rewrite E; unfold body; rewrite !app_assoc.
    apply words_command; auto.
  - pose proof (words_command style id (I2PKeys_String keys) options extras
                              EmptyString Hstyle Hid Hdest Hopts Hextras
                              (or_introl eq_refl)) as H.
    rewrite app_empty_r in H; exact H.
Qed.

Lemma scmsg_tokens_witness :
  let body :=
      "SESSION CREATE STYLE=" ++ "STREAM" ++ " ID=" ++ "tunnel"
        ++ " DESTINATION=" ++ I2PKeys_concat sample_keys ++ " "
        ++ option_tokens ["inbound.length=2"; "outbound.length=2"]
        ++ String.concat " " ["FROM_PORT=7"; "SILENT=false"] in
  scmsg I2PKeys_concat "STREAM" "tunnel" sample_keys
        ["inbound.length=2"; "outbound.length=2"]
        ["FROM_PORT=7"; "SILENT=false"] = body ++ Str.nl
  /\ Scanner.ScanWords
       (scmsg I2PKeys_concat "STREAM" "tunnel" sample_keys
              ["inbound.length=2"; "outbound.length=2"]
              ["FROM_PORT=7"; "SILENT=false"])
     = command_tokens "STREAM" "tunnel" (I2PKeys_concat sample_keys)
                      ["inbound.length=2"; "outbound.length=2"]
                      ["FROM_PORT=7"; "SILENT=false"]
  /\ Scanner.ScanWords body
     = command_tokens "STREAM" "tunnel" (I2PKeys_concat sample_keys)
                      ["inbound.length=2"; "outbound.length=2"]
                      ["FROM_PORT=7"; "SILENT=false"].
Proof.
  apply (scmsg_tokens I2PKeys_concat "STREAM" "tunnel" sample_keys
                      ["inbound.length=2"; "outbound.length=2"]
                      ["FROM_PORT=7"; "SILENT=false"]); reflexivity.
Defined.

(** ** Session negotiation: the reply and the connection *)

Lemma Read_keeps_open (c c' : Net.Conn) (size : nat) (r : string + error) :
  Net.Read c size = (r, c') -> Net.closed c' = Net.closed c.
Proof.
  unfold Net.Read; destruct (Net.to_read c) as [|[data|e] rs]; intros H;
    inversion H; reflexivity.
Qed.

(** A reply made of the success prefix, a destination and one more byte,
    which is the line feed in a reply in the form of the protocol: that last
    byte is dropped, whatever it is, and the destination is compared with the
    serialization of the keys asked for; when they are equal the connection
    is returned, and when they differ the call fails.  Neither way is the
    connection closed. *)
Lemma session_reply_OK (I2PKeys_String : I2PKeys -> string) (keys : I2PKeys)
      (dest : string) (last : ascii) (c : Net.Conn) :
  session_reply I2PKeys_String keys
                (session_OK ++ dest ++ String last EmptyString) c
  = if I2PKeys_String keys =? dest then (Ok c, c)
    else (Err (errors_New
                 "SAMv3 created a tunnel with keys other than the ones we asked it for"),
          c).
Proof.
  unfold session_reply.
  set (text := session_OK ++ dest ++ String last EmptyString).
  assert (Hp : Str.HasPrefix text session_OK = true)
    by (apply HasPrefix_app; eexists; reflexivity).
  assert (Hlen : String.length text
                 = String.length session_OK + String.length dest + 1)
    by (unfold text; rewrite !app_length; simpl; lia).
  assert (Hs : Str.slice (String.length session_OK) (String.length text - 1)
                         text = Some dest).
  { unfold Str.slice.
    destruct (Nat.leb_spec (String.length session_OK)
                           (String.length text - 1)) as [_|H]; [|lia].
    destruct (Nat.leb_spec (String.length text - 1) (String.length text))
      as [_|H]; [|lia].
    replace (String.length text - 1 - String.length session_OK)
      with (String.length dest) by lia.
    unfold text; rewrite drop_app, take_app; reflexivity. }
  rewrite Hp, Hs; destruct (I2PKeys_String keys =? dest); reflexivity.
Qed.

(** A reply that does not begin with the success prefix: the call fails and
    the connection is closed. *)
Lemma session_reply_failure (I2PKeys_String : I2PKeys -> string)
      (keys : I2PKeys) (text : string) (c : Net.Conn) :
  Str.HasPrefix text session_OK = false ->
  exists e : error,
    session_reply I2PKeys_String keys text c = (Err e, Net.Close c).
Proof.
  intros Hp; unfold session_reply; rewrite Hp.
  destruct (text =? session_DUPLICATE_ID); [eexists; reflexivity|].
  destruct (text =? session_DUPLICATE_DEST); [eexists; reflexivity|].
  destruct (text =? session_INVALID_KEY); [eexists; reflexivity|].
  destruct (Str.HasPrefix text session_I2P_ERROR) eqn:Hi;
    [|eexists; reflexivity].
  rewrite (slice_from_prefix _ _ Hi); eexists; reflexivity.
Qed.

(** [NewSAM] never closes the connection that it dialled, whether it
    succeeds or fails. *)
Lemma NewSAM_keeps_open
      (net_Dial : string -> string -> Net.Conn + error)
      (address : string) (c0 c : Net.Conn) (r : Result SAM) :
  net_Dial "tcp4" address = inl c0 ->
  NewSAM net_Dial address = (r, Some c) ->
  Net.closed c = Net.closed c0.
Proof.
  intros Hd; unfold NewSAM; rewrite Hd.
  destruct (Net.Write c0 ("HELLO VERSION MIN=3.0 MAX=3.0" ++ Str.nl))
    as [[k|e] c1] eqn:Hw.
  - apply Write_accepts in Hw; destruct Hw as (_ & _ & _ & Hc1 & _).
    destruct (Net.Read c1 256) as [[reply|e] c2] eqn:Hr;
      apply Read_keeps_open in Hr.
    + destruct (reply =? hello_OK); [|destruct (reply =? hello_NOVERSION)];
        intros H; inversion H; subst; congruence.
    + intros H; inversion H; subst; congruence.
  - apply Write_fails in Hw; destruct Hw as (_ & _ & Hc1 & _).
    intros H; inversion H; subst; congruence.
Qed.

(** C1, where the code fails it.  After the handshake on the new connection
    and the write of the command have gone through, a reply made of the
    success prefix, a destination other than the serialization of the keys
    asked for and the line feed makes [newGenericSession] fail with the error
    of the key comparison, and the connection that it opened is returned to
    nobody and left as open as the handshake left it: this failure path does
    not close the connection. *)
Theorem newGenericSession_leaves_open
        (net_Dial : string -> string -> Net.Conn + error)
        (I2PKeys_String : I2PKeys -> string)
        (sam sam2 : SAM) (style id : string) (keys : I2PKeys)
        (options extras : list string)
        (opened : option Net.Conn) (c1 c2 : Net.Conn) (dest : string) :
  NewSAM net_Dial (address sam) = (Ok sam2, opened) ->
  write_loop 15 (scmsg I2PKeys_String style id keys options extras) 0
             (conn sam2) = (None, c1) ->
  Net.Read c1 4096 = (inl (session_OK ++ dest ++ Str.nl), c2) ->
  I2PKeys_String keys <> dest ->
  newGenericSession net_Dial I2PKeys_String sam style id keys options extras
  = (Err (errors_New
            "SAMv3 created a tunnel with keys other than the ones we asked it for"),
     Some c2)
  /\ Net.closed c2 = Net.closed (conn sam2).
Proof.
  intros Hsam Hloop Hread Hne.
  pose proof (write_loop_outcome
                (scmsg I2PKeys_String style id keys options extras)
                15 0 (conn sam2) ltac:(lia)) as Hout.
  rewrite Hloop in Hout; simpl in Hout.
  destruct Hout as (_ & _ & m & _ & _ & [(_ & _ & Hopen)|[(H & _)|(e & H & _)]]);
    [|discriminate|discriminate].
  split.
  - unfold newGenericSession; rewrite Hsam, Hloop, Hread.
    unfold Str.nl; rewrite session_reply_OK.
    destruct (String.eqb_spec (I2PKeys_String keys) dest) as [E|_];
      [contradiction|reflexivity].
  - apply Read_keeps_open in Hread; congruence.
Qed.

Lemma newGenericSession_leaves_open_witness :
  let c := bridge (session_OK ++ "OTHERKEYS" ++ Str.nl) in
  let sam := controller EmptyString in
  let hello := "HELLO VERSION MIN=3.0 MAX=3.0" ++ Str.nl in
  let sam2 := mkSAM (address sam)
                    (snd (Net.Read (snd (Net.Write c hello)) 256)) in
  let c1 := snd (write_loop 15 (scmsg I2PKeys_concat "STREAM" "tunnel"
                                      sample_keys [] [])
                            0 (conn sam2)) in
  let c2 := snd (Net.Read c1 4096) in
  newGenericSession (dial_to c) I2PKeys_concat sam "STREAM" "tunnel"
                    sample_keys [] []
  = (Err (errors_New
            "SAMv3 created a tunnel with keys other than the ones we asked it for"),
     Some c2)
  /\ Net.closed c2 = false.
Proof.
  intros c sam hello sam2 c1 c2.
  apply (newGenericSession_leaves_open
           (dial_to c) I2PKeys_concat sam sam2 "STREAM" "tunnel" sample_keys
           [] [] (Some (conn sam2)) c1 c2 "OTHERKEYS");
    [reflexivity|reflexivity|reflexivity|discriminate].
Defined.

(** The connection is left open as well when the handshake on the new
    connection fails: [newGenericSession] leaves it as [NewSAM] did, which
    never closes. *)
Lemma newGenericSession_handshake_leak
      (net_Dial : string -> string -> Net.Conn + error)
      (I2PKeys_String : I2PKeys -> string)
      (sam : SAM) (style id : string) (keys : I2PKeys)
      (options extras : list string) (c0 c : Net.Conn) (e : error) :
  net_Dial "tcp4" (address sam) = inl c0 ->
  NewSAM net_Dial (address sam) = (Err e, Some c) ->
  newGenericSession net_Dial I2PKeys_String sam style id keys options extras
  = (Err (errors_New "Unable to create new streaming tunnel."), Some c)
  /\ Net.closed c = Net.closed c0.
Proof.
  intros Hd Hsam; split.
  - unfold newGenericSession; rewrite Hsam; reflexivity.
  - exact (NewSAM_keeps_open net_Dial (address sam) c0 c (Err e) Hd Hsam).
Qed.

(** C3, where the code fails it.  After the handshake on the new connection
    and the write of the command have gone through, a reply that is the
    success prefix and nothing more makes [newGenericSession] panic: the
    slice of the destination is out of range, where the empty destination
    should be compared with the keys.  And a reply made of the success
    prefix, the serialization of the keys asked for and one more byte is
    accepted whatever that byte is: the byte is dropped unseen, so that the
    destination after the prefix need not be equal to the keys. *)
Theorem newGenericSession_bare_prefix
        (net_Dial : string -> string -> Net.Conn + error)
        (I2PKeys_String : I2PKeys -> string)
        (sam sam2 : SAM) (style id : string) (keys : I2PKeys)
        (options extras : list string)
        (opened : option Net.Conn) (c1 c2 : Net.Conn) (text : string) :
  NewSAM net_Dial (address sam) = (Ok sam2, opened) ->
  write_loop 15 (scmsg I2PKeys_String style id keys options extras) 0
             (conn sam2) = (None, c1) ->
  Net.Read c1 4096 = (inl text, c2) ->
  (text = session_OK ->
   newGenericSession net_Dial I2PKeys_String sam style id keys options extras
   = (Panic, Some c2))
  /\ (forall last : ascii,
         text = session_OK ++ I2PKeys_String keys ++ String last EmptyString ->
         newGenericSession net_Dial I2PKeys_String sam style id keys options
                           extras = (Ok c2, Some c2)).
Proof.
  intros Hsam Hloop Hread; split.
  - intros ->; unfold newGenericSession; rewrite Hsam, Hloop, Hread.
    reflexivity.
  - intros last ->; unfold newGenericSession; rewrite Hsam, Hloop, Hread.
    rewrite session_reply_OK, String.eqb_refl; reflexivity.
Qed.

Lemma newGenericSession_bare_prefix_witness :
  let c := bridge session_OK in
  let sam := controller EmptyString in
  let hello := "HELLO VERSION MIN=3.0 MAX=3.0" ++ Str.nl in
  let sam2 := mkSAM (address sam)
                    (snd (Net.Read (snd (Net.Write c hello)) 256)) in
  let c1 := snd (write_loop 15 (scmsg I2PKeys_concat "STREAM" "tunnel"
                                      sample_keys [] [])
                            0 (conn sam2)) in
  let c2 := snd (Net.Read c1 4096) in
  (session_OK = session_OK ->
   newGenericSession (dial_to c) I2PKeys_concat sam "STREAM" "tunnel"
                     sample_keys [] []
   = (Panic, Some c2))
  /\ (forall last : ascii,
         session_OK
         = session_OK ++ I2PKeys_concat sample_keys ++ String last EmptyString ->
         newGenericSession (dial_to c) I2PKeys_concat sam "STREAM" "tunnel"
                           sample_keys [] [] = (Ok c2, Some c2)).
Proof.
  intros c sam hello sam2 c1 c2.
  apply (newGenericSession_bare_prefix
           (dial_to c) I2PKeys_concat sam sam2 "STREAM" "tunnel" sample_keys
           [] [] (Some (conn sam2)) c1 c2 session_OK); reflexivity.
Defined.

(** The two replies of C3 at work: the bare success prefix, and the keys
    asked for followed by a byte that is not a line feed. *)
Example newGenericSession_unchecked_slice :
  let r1 := newGenericSession (dial_to (bridge session_OK)) I2PKeys_concat
                              (controller EmptyString) "STREAM" "tunnel"
                              sample_keys [] [] in
  let r2 := newGenericSession
              (dial_to (bridge (session_OK ++ "PUBKPRIVKX"))) I2PKeys_concat
              (controller EmptyString) "STREAM" "tunnel" sample_keys [] [] in
  fst r1 = Panic
  /\ option_map Ok (snd r2) = Some (fst r2)
  /\ (I2PKeys_concat sample_keys =? "PUBKPRIVKX") = false.
Proof.
  vm_compute; repeat split; reflexivity.
Qed.

(** After a handshake that went through, [newGenericSession] closes the
    connection before it returns any error but the one of the key
    comparison, and a connection that it returns is the one it opened, as
    open as the handshake left it. *)
Lemma newGenericSession_close_discipline
      (net_Dial : string -> string -> Net.Conn + error)
      (I2PKeys_String : I2PKeys -> string)
      (sam sam2 : SAM) (style id : string) (keys : I2PKeys)
      (options extras : list string)
      (opened : option Net.Conn) (r : Result Net.Conn) (c : Net.Conn) :
  NewSAM net_Dial (address sam) = (Ok sam2, opened) ->
  newGenericSession net_Dial I2PKeys_String sam style id keys options extras
  = (r, Some c) ->
  match r with
  | Ok c0 => c0 = c /\ Net.closed c = Net.closed (conn sam2)
  | Err e =>
    e <> errors_New
           "SAMv3 created a tunnel with keys other than the ones we asked it for"
    -> Net.closed c = true
  | Panic => Net.closed c = Net.closed (conn sam2)
  end.
Proof.
  intros Hsam; unfold newGenericSession; rewrite Hsam.
  pose proof (write_loop_outcome
                (scmsg I2PKeys_String style id keys options extras)
                15 0 (conn sam2) ltac:(lia)) as Hloop.
  destruct (write_loop 15 (scmsg I2PKeys_String style id keys options extras)
                       0 (conn sam2)) as [[err|] c1]; simpl in Hloop.
  - intros H; inversion H; subst; clear H; intros _.
    destruct Hloop as (_ & _ & m & _ & _ & [(H & _)|[(_ & _ & _ & H)|(e' & _ & _ & H)]]);
      [discriminate|exact H|exact H].
  - destruct Hloop as (_ & _ & m & _ & _ & [(_ & _ & Hopen)|[(H & _)|(e' & H & _)]]);
      [|discriminate|discriminate].
    destruct (Net.Read c1 4096) as [[text|err] c2] eqn:Hread.
    + apply Read_keeps_open in Hread.
      destruct (Str.HasPrefix text session_OK) eqn:Hp.
      * unfold session_reply; rewrite Hp.
        destruct (Str.slice (String.length session_OK)
                            (String.length text - 1) text) as [dest|].
        -- destruct (I2PKeys_String keys =? dest); simpl;
             intros H; inversion H; subst; clear H.
           ++ split; [reflexivity|congruence].
           ++ intros Hne; contradiction Hne; reflexivity.
        -- intros H; inversion H; subst; clear H; congruence.
      * destruct (session_reply_failure I2PKeys_String keys text c2 Hp)
          as [e He].
        rewrite He; intros H; inversion H; subst; clear H; reflexivity.
    + intros H; inversion H; subst; clear H; reflexivity.
Qed.

(** ** Beyond the claims: the transport under [NewSAM], [NewKeys] and
    [Lookup] *)

(** A call of [Read] leaves the written side of the connection alone. *)
Lemma Read_keeps_writes (c c' : Net.Conn) (size : nat) (r : string + error) :
  Net.Read c size = (r, c') ->
  Net.nwrites c' = Net.nwrites c /\ Net.sent c' = Net.sent c.
Proof.
  unfold Net.Read; destruct (Net.to_read c) as [|[data|e] rs]; intros H;
    inversion H; split; reflexivity.
Qed.

(** X1.  [NewSAM] hands the error of the transport to its caller as it is, and
    never closes the connection it dialled.  A refused dial gives the error
    of the dial and no connection.  After a dial that went through, the
    connection has seen exactly one call of [Write] and is as open as the
    dial left it, whatever the outcome; a failed write or a failed read gives
    the error of that call. *)
Theorem NewSAM_transport_errors
        (net_Dial : string -> string -> Net.Conn + error) (address : string) :
  (forall e : error,
      net_Dial "tcp4" address = inr e ->
      NewSAM net_Dial address = (Err e, None))
  /\ (forall c0 : Net.Conn,
         net_Dial "tcp4" address = inl c0 ->
         exists (r : Result SAM) (c : Net.Conn),
           NewSAM net_Dial address = (r, Some c)
           /\ Net.closed c = Net.closed c0
           /\ Net.nwrites c = S (Net.nwrites c0)
           /\ (forall (e : error) (c1 : Net.Conn),
                  Net.Write c0 ("HELLO VERSION MIN=3.0 MAX=3.0" ++ Str.nl)
                  = (inr e, c1) -> r = Err e)
           /\ (forall (k : nat) (e : error) (c1 c2 : Net.Conn),
                  Net.Write c0 ("HELLO VERSION MIN=3.0 MAX=3.0" ++ Str.nl)
                  = (inl k, c1) ->
                  Net.Read c1 256 = (inr e, c2) -> r = Err e)).
Proof.
  split.
  - intros e Hd; unfold NewSAM; rewrite Hd; reflexivity.
  - intros c0 Hd.
    destruct (NewSAM net_Dial address) as [r o] eqn:Hsam.
    pose proof Hsam as Hrun; unfold NewSAM in Hrun; rewrite Hd in Hrun.
    destruct (Net.Write c0 ("HELLO VERSION MIN=3.0 MAX=3.0" ++ Str.nl))
      as [[k|e] c1] eqn:Hw.
    + pose proof (Write_accepts _ _ _ _ Hw) as (_ & _ & Hn1 & _).
      destruct (Net.Read c1 256) as [[reply|e] c2] eqn:Hr;
        pose proof (Read_keeps_writes _ _ _ _ Hr) as [Hn2 _].
      * assert (Ho : o = Some c2).
        { destruct (reply =? hello_OK);
            [|destruct (reply =? hello_NOVERSION)];
            inversion Hrun; reflexivity. }
        subst o; exists r, c2; split; [reflexivity|].
        split; [exact (NewSAM_keeps_open _ _ _ _ _ Hd Hsam)|].
        split; [congruence|]. split; intros; congruence.
      * inversion Hrun; subst.
        exists (Err e), c2; split; [reflexivity|].
        split; [exact (NewSAM_keeps_open _ _ _ _ _ Hd Hsam)|].
        split; [congruence|]. split; intros; congruence.
    + pose proof (Write_fails _ _ _ _ Hw) as (_ & Hn1 & _).
      inversion Hrun; subst.
      exists (Err e), c1; split; [reflexivity|].
      split; [exact (NewSAM_keeps_open _ _ _ _ _ Hd Hsam)|].
      split; [exact Hn1|]. split; intros; congruence.
Qed.







(** ** Beyond the claims: the replies of [Lookup] and [NewKeys] *)

(** Behind the header of a reply that has more than the header, [Lookup]
    runs its loop over the words of the rest. *)
Lemma Lookup_tokens (sam : SAM) (name : string) (k : nat)
      (c1 c2 : Net.Conn) (rest : string) :
  Net.Write (conn sam) ("NAMING LOOKUP NAME=" ++ name ++ Str.nl)
  = (inl k, c1) ->
  Net.Read c1 4096 = (inl ("NAMING REPLY " ++ rest), c2) ->
  rest <> EmptyString ->
  Lookup sam name
  = (Lookup_loop name (Scanner.ScanWords rest) EmptyString, c2).
Proof.
  intros Hw Hr Hrest; unfold Lookup; rewrite Hw, Hr.
  assert (Hp : Str.HasPrefix ("NAMING REPLY " ++ rest) "NAMING REPLY " = true)
    by (apply HasPrefix_app; exists rest; reflexivity).
  assert (Hlen : 13 < String.length ("NAMING REPLY " ++ rest)).
  { rewrite app_length; destruct rest; [contradiction|simpl; lia]. }
  rewrite Hp.
  destruct (Nat.leb_spec (String.length ("NAMING REPLY " ++ rest)) 13)
    as [|_]; [lia|].
  change (Str.slice 13 (String.length ("NAMING REPLY " ++ rest))
                    ("NAMING REPLY " ++ rest))
    with (Str.slice_from 13 ("NAMING REPLY " ++ rest)).
  rewrite slice_from_le by lia; reflexivity.
Qed.

(** The loop of [Lookup] passes the echo of the name asked for. *)
Lemma Lookup_loop_echo (name : string) (rest : list string) (errStr : string) :
  Lookup_loop name (("NAME=" ++ name) :: rest) errStr
  = Lookup_loop name rest errStr.
Proof.
  cbn [Lookup_loop].
  destruct (String.eqb_spec ("NAME=" ++ name) "RESULT=OK") as [E|_];
    [discriminate E|].
  destruct (String.eqb_spec ("NAME=" ++ name) "RESULT=INVALID_KEY") as [E|_];
    [discriminate E|].
  destruct (String.eqb_spec ("NAME=" ++ name) "RESULT=KEY_NOT_FOUND") as [E|_];
    [discriminate E|].
  rewrite String.eqb_refl; reflexivity.
Qed.

Lemma Lookup_continues_echo (name : string) :
  Lookup_continues name ("NAME=" ++ name) = true.
Proof.
  unfold Lookup_continues; rewrite String.eqb_refl, !orb_true_r.
  reflexivity.
Qed.

(** The loop of [Lookup] adds a space and the text of a [MESSAGE=] token to
    the error text. *)
Lemma Lookup_loop_message (name msg : string) (rest : list string)
      (errStr : string) :
  Lookup_loop name (("MESSAGE=" ++ msg) :: rest) errStr
  = Lookup_loop name rest (errStr ++ " " ++ msg).
Proof.
  assert (Hm : Str.HasPrefix ("MESSAGE=" ++ msg) "MESSAGE=" = true)
    by (apply HasPrefix_app; exists msg; reflexivity).
  cbn [Lookup_loop].
  destruct (String.eqb_spec ("MESSAGE=" ++ msg) "RESULT=OK") as [E|_];
    [discriminate E|].
  destruct (String.eqb_spec ("MESSAGE=" ++ msg) "RESULT=INVALID_KEY")
    as [E|_]; [discriminate E|].
  destruct (String.eqb_spec ("MESSAGE=" ++ msg) "RESULT=KEY_NOT_FOUND")
    as [E|_]; [discriminate E|].
  destruct (String.eqb_spec ("MESSAGE=" ++ msg) ("NAME=" ++ name)) as [E|_];
    [discriminate E|].
  replace (Str.HasPrefix ("MESSAGE=" ++ msg) "VALUE=") with false
    by reflexivity.
  rewrite Hm, (sliced_prefix _ "MESSAGE=" _ Hm); reflexivity.
Qed.

(** X5.  A lookup answered in the form of the protocol succeeds with the address
    sent: for a name and an address of printable bytes with no space, the
    reply [NAMING REPLY RESULT=OK NAME=<name> VALUE=<addr>] and a line feed
    gives the address [<addr>], the prefix [VALUE=] stripped. *)
Theorem Lookup_round_trip
        (sam : SAM) (name addr : string) (k : nat) (c1 c2 : Net.Conn) :
  Net.Write (conn sam) ("NAMING LOOKUP NAME=" ++ name ++ Str.nl)
  = (inl k, c1) ->
  Net.Read c1 4096
  = (inl ("NAMING REPLY RESULT=OK NAME=" ++ name ++ " VALUE=" ++ addr
            ++ Str.nl), c2) ->
  word name = true -> word addr = true ->
  Lookup sam name = (Ok addr, c2).
Proof.
  intros Hw Hr Hname Haddr.
  rewrite (Lookup_tokens sam name k c1 c2
             ("RESULT=OK NAME=" ++ name ++ " VALUE=" ++ addr ++ Str.nl)
             Hw Hr ltac:(discriminate)).
  f_equal; unfold Scanner.ScanWords.
  change ("RESULT=OK NAME=" ++ name ++ " VALUE=" ++ addr ++ Str.nl)
    with ("RESULT=OK" ++ " " ++ ("NAME=" ++ name) ++ " "
            ++ ("VALUE=" ++ addr) ++ Str.nl).
  rewrite (words_token_space "RESULT=OK") by reflexivity.
  rewrite (words_token_space ("NAME=" ++ name))
    by (apply token_field; [reflexivity|exact Hname]).
  rewrite (words_token_end ("VALUE=" ++ addr) Str.nl)
    by (try (apply token_field; [reflexivity|exact Haddr]);
        right; reflexivity).
  apply (Lookup_loop_value name addr ["RESULT=OK"; ("NAME=" ++ name)] []).
  cbn [forallb]; rewrite Lookup_continues_echo; reflexivity.
Qed.

Lemma Lookup_round_trip_witness :
  let reply := "NAMING REPLY RESULT=OK NAME=" ++ "zzz.i2p" ++ " VALUE="
                 ++ "AbCd~1234" ++ Str.nl in
  let sam := controller reply in
  let c1 := snd (Net.Write (conn sam)
                           ("NAMING LOOKUP NAME=" ++ "zzz.i2p" ++ Str.nl)) in
  let c2 := snd (Net.Read c1 4096) in
  Lookup sam "zzz.i2p" = (Ok "AbCd~1234", c2).
Proof.
  intros reply sam c1 c2.
  apply (Lookup_round_trip sam "zzz.i2p" "AbCd~1234" 27 c1 c2); reflexivity.
Defined.

(** X6.  The error of a lookup that the bridge refuses, for a name and a message
    of printable bytes with no space.  After [RESULT=KEY_NOT_FOUND] and the
    echo of the name the message is [Unable to resolve <name>]; after
    [RESULT=INVALID_KEY], the echo and [MESSAGE=<msg>] it is
    [Invalid key. <msg>]; and after [RESULT=OK] and the echo with no
    [VALUE=] token the lookup fails too, with the empty message. *)
Theorem Lookup_failure_messages
        (sam : SAM) (name msg reply : string) (k : nat) (c1 c2 : Net.Conn) :
  Net.Write (conn sam) ("NAMING LOOKUP NAME=" ++ name ++ Str.nl)
  = (inl k, c1) ->
  Net.Read c1 4096 = (inl reply, c2) ->
  word name = true -> word msg = true ->
  (reply = "NAMING REPLY RESULT=KEY_NOT_FOUND NAME=" ++ name ++ Str.nl ->
   Lookup sam name = (Err (errors_New ("Unable to resolve " ++ name)), c2))
  /\ (reply = "NAMING REPLY RESULT=INVALID_KEY NAME=" ++ name ++ " MESSAGE="
                ++ msg ++ Str.nl ->
      Lookup sam name = (Err (errors_New ("Invalid key. " ++ msg)), c2))
  /\ (reply = "NAMING REPLY RESULT=OK NAME=" ++ name ++ Str.nl ->
      Lookup sam name = (Err (errors_New EmptyString), c2)).
Proof.
  intros Hw Hr Hname Hmsg.
  assert (Hecho : token ("NAME=" ++ name) = true)
    by (apply token_field; [reflexivity|exact Hname]).
  split; [|split]; intros ->.
  - rewrite (Lookup_tokens sam name k c1 c2
               ("RESULT=KEY_NOT_FOUND NAME=" ++ name ++ Str.nl)
               Hw Hr ltac:(discriminate)).
    f_equal; unfold Scanner.ScanWords.
    change ("RESULT=KEY_NOT_FOUND NAME=" ++ name ++ Str.nl)
      with ("RESULT=KEY_NOT_FOUND" ++ " " ++ ("NAME=" ++ name) ++ Str.nl).
    rewrite (words_token_space "RESULT=KEY_NOT_FOUND") by reflexivity.
    rewrite (words_token_end ("NAME=" ++ name) Str.nl)
      by (try exact Hecho; right; reflexivity).
    change (Lookup_loop name ["RESULT=KEY_NOT_FOUND"; ("NAME=" ++ name)]
                        EmptyString)
      with (Lookup_loop name [("NAME=" ++ name)]
                        ("Unable to resolve " ++ name)).
    rewrite Lookup_loop_echo; reflexivity.
  - rewrite (Lookup_tokens sam name k c1 c2
               ("RESULT=INVALID_KEY NAME=" ++ name ++ " MESSAGE=" ++ msg
                  ++ Str.nl)
               Hw Hr ltac:(discriminate)).
    f_equal; unfold Scanner.ScanWords.
    change ("RESULT=INVALID_KEY NAME=" ++ name ++ " MESSAGE=" ++ msg
              ++ Str.nl)
      with ("RESULT=INVALID_KEY" ++ " " ++ ("NAME=" ++ name) ++ " "
              ++ ("MESSAGE=" ++ msg) ++ Str.nl).
    rewrite (words_token_space "RESULT=INVALID_KEY") by reflexivity.
    rewrite (words_token_space ("NAME=" ++ name)) by exact Hecho.
    rewrite (words_token_end ("MESSAGE=" ++ msg) Str.nl)
      by (try (apply token_field; [reflexivity|exact Hmsg]);
          right; reflexivity).
    change (Lookup_loop name
                        ["RESULT=INVALID_KEY"; ("NAME=" ++ name);
                         ("MESSAGE=" ++ msg)] EmptyString)
      with (Lookup_loop name [("NAME=" ++ name); ("MESSAGE=" ++ msg)]
                        "Invalid key.").
    rewrite Lookup_loop_echo, Lookup_loop_message; reflexivity.
  - rewrite (Lookup_tokens sam name k c1 c2
               ("RESULT=OK NAME=" ++ name ++ Str.nl)
               Hw Hr ltac:(discriminate)).
    f_equal; unfold Scanner.ScanWords.
    change ("RESULT=OK NAME=" ++ name ++ Str.nl)
      with ("RESULT=OK" ++ " " ++ ("NAME=" ++ name) ++ Str.nl).
    rewrite (words_token_space "RESULT=OK") by reflexivity.
    rewrite (words_token_end ("NAME=" ++ name) Str.nl)
      by (try exact Hecho; right; reflexivity).
    change (Lookup_loop name ["RESULT=OK"; ("NAME=" ++ name)] EmptyString)
      with (Lookup_loop name [("NAME=" ++ name)] EmptyString).
    rewrite Lookup_loop_echo; reflexivity.
Qed.

Lemma Lookup_failure_messages_witness :
  let reply := "NAMING REPLY RESULT=INVALID_KEY NAME=" ++ "bad.i2p"
                 ++ " MESSAGE=" ++ "malformed" ++ Str.nl in
  let sam := controller reply in
  let c1 := snd (Net.Write (conn sam)
                           ("NAMING LOOKUP NAME=" ++ "bad.i2p" ++ Str.nl)) in
  let c2 := snd (Net.Read c1 4096) in
  (reply = "NAMING REPLY RESULT=KEY_NOT_FOUND NAME=" ++ "bad.i2p" ++ Str.nl ->
   Lookup sam "bad.i2p"
   = (Err (errors_New ("Unable to resolve " ++ "bad.i2p")), c2))
  /\ (reply = "NAMING REPLY RESULT=INVALID_KEY NAME=" ++ "bad.i2p"
                ++ " MESSAGE=" ++ "malformed" ++ Str.nl ->
      Lookup sam "bad.i2p"
      = (Err (errors_New ("Invalid key. " ++ "malformed")), c2))
  /\ (reply = "NAMING REPLY RESULT=OK NAME=" ++ "bad.i2p" ++ Str.nl ->
      Lookup sam "bad.i2p" = (Err (errors_New EmptyString), c2)).
Proof.
  intros reply sam c1 c2.
  apply (Lookup_failure_messages sam "bad.i2p" "malformed" reply 27 c1 c2);
    reflexivity.
Defined.

(** At a token that it does not know, the loop of [Lookup] fails with the
    parse error, whatever error text the tokens before have left. *)
Lemma Lookup_loop_unknown (name t : string) (pre post : list string) :
  forallb (Lookup_continues name) pre = true ->
  Lookup_continues name t = false ->
  Str.HasPrefix t "VALUE=" = false ->
  forall errStr : string,
    Lookup_loop name (pre ++ t :: post)%list errStr
    = Err (errors_New "Failed to parse lookup reply.").
Proof.
  intros Hpre Ht Hv; induction pre as [|p pre IH]; intros errStr.
  - cbn [Lookup_loop List.app].
    unfold Lookup_continues in Ht.
    destruct (t =? "RESULT=OK"); [discriminate Ht|].
    destruct (t =? "RESULT=INVALID_KEY"); [discriminate Ht|].
    destruct (t =? "RESULT=KEY_NOT_FOUND"); [discriminate Ht|].
    destruct (t =? "NAME=" ++ name); [discriminate Ht|].
    cbn [orb] in Ht; rewrite Hv, Ht; reflexivity.
  - simpl in Hpre; apply andb_true_iff in Hpre; destruct Hpre as [Hp Hpre].
    specialize (IH Hpre).
    change ((p :: pre) ++ t :: post)%list with (p :: (pre ++ t :: post))%list.
    cbn [Lookup_loop].
    unfold Lookup_continues in Hp; revert Hp.
    destruct (p =? "RESULT=OK"); [intros _; apply IH|].
    destruct (p =? "RESULT=INVALID_KEY"); [intros _; apply IH|].
    destruct (p =? "RESULT=KEY_NOT_FOUND"); [intros _; apply IH|].
    destruct (p =? "NAME=" ++ name); [intros _; apply IH|].
    cbn [orb]; intros Hm.
    assert (Hpv : Str.HasPrefix p "VALUE=" = false).
    { apply HasPrefix_app in Hm; destruct Hm as [r ->]; reflexivity. }
    rewrite Hpv, Hm, (sliced_prefix p "MESSAGE=" _ Hm); apply IH.
Qed.

(** X7.  A token that [Lookup] does not know, met before any [VALUE=] token,
    makes the lookup fail with [Failed to parse lookup reply.]: the error
    text gathered so far is dropped, and a [VALUE=] token further on is not
    reached.  The echo of another name than the one asked for and the second
    word of a message are such tokens. *)
Theorem Lookup_unknown_token
        (sam : SAM) (name : string) (k : nat) (c1 c2 : Net.Conn)
        (rest t : string) (pre post : list string) :
  Net.Write (conn sam) ("NAMING LOOKUP NAME=" ++ name ++ Str.nl)
  = (inl k, c1) ->
  Net.Read c1 4096 = (inl ("NAMING REPLY " ++ rest), c2) ->
  Scanner.ScanWords rest = (pre ++ t :: post)%list ->
  forallb (Lookup_continues name) pre = true ->
  Lookup_continues name t = false ->
  Str.HasPrefix t "VALUE=" = false ->
  Lookup sam name = (Err (errors_New "Failed to parse lookup reply."), c2).
Proof.
  intros Hw Hr Htok Hpre Ht Hv.
  assert (Hrest : rest <> EmptyString)
    by (intros ->; destruct pre; discriminate Htok).
  rewrite (Lookup_tokens sam name k c1 c2 rest Hw Hr Hrest), Htok.
  rewrite (Lookup_loop_unknown name t pre post Hpre Ht Hv); reflexivity.
Qed.

Lemma Lookup_unknown_token_witness :
  let rest := "RESULT=INVALID_KEY MESSAGE=bad key VALUE=abc" in
  let sam := controller ("NAMING REPLY " ++ rest) in
  let c1 := snd (Net.Write (conn sam)
                           ("NAMING LOOKUP NAME=" ++ "zzz.i2p" ++ Str.nl)) in
  let c2 := snd (Net.Read c1 4096) in
  Lookup sam "zzz.i2p"
  = (Err (errors_New "Failed to parse lookup reply."), c2).
Proof.
  intros rest sam c1 c2.
  apply (Lookup_unknown_token sam "zzz.i2p" 27 c1 c2 rest "key"
           ["RESULT=INVALID_KEY"; "MESSAGE=bad"] ["VALUE=abc"]);
    reflexivity.
Defined.

(** The loop of [Lookup] returns an address only at a [VALUE=] token that
    holds it, reached over tokens that the loop passes. *)
Lemma Lookup_loop_Ok_inv (name : string) (tokens : list string) :
  forall (errStr : string) (a : I2PAddr),
    Lookup_loop name tokens errStr = Ok a ->
    exists pre post : list string,
      tokens = (pre ++ ("VALUE=" ++ a)%string :: post)%list
      /\ forallb (Lookup_continues name) pre = true.
Proof.
  induction tokens as [|t tokens IH]; intros errStr a; cbn [Lookup_loop];
    [discriminate|].
  assert (Hnext : forall e : string,
             Lookup_continues name t = true ->
             Lookup_loop name tokens e = Ok a ->
             exists pre post : list string,
               (t :: tokens) = (pre ++ ("VALUE=" ++ a)%string :: post)%list
               /\ forallb (Lookup_continues name) pre = true).
  { intros e Ht H; destruct (IH e a H) as (pre & post & -> & Hpre).
    exists (t :: pre), post; split; [reflexivity|].
    simpl; rewrite Ht, Hpre; reflexivity. }
  unfold Lookup_continues in Hnext.
  destruct (t =? "RESULT=OK"); [apply Hnext; reflexivity|].
  destruct (t =? "RESULT=INVALID_KEY"); [apply Hnext; reflexivity|].
  destruct (t =? "RESULT=KEY_NOT_FOUND"); [apply Hnext; reflexivity|].
  destruct (t =? "NAME=" ++ name); [apply Hnext; reflexivity|].
  destruct (Str.HasPrefix t "VALUE=") eqn:Hv.
  - rewrite (sliced_prefix t "VALUE=" _ Hv); intros H; injection H as <-.
    exists [], tokens; split; [|reflexivity].
    cbn [List.app]; f_equal; exact (HasPrefix_drop t "VALUE=" Hv).
  - destruct (Str.HasPrefix t "MESSAGE=") eqn:Hm; [|discriminate].
    rewrite (sliced_prefix t "MESSAGE=" _ Hm); apply Hnext; reflexivity.
Qed.

(** X8.  A lookup succeeds only on a [VALUE=] token.  When [Lookup] returns an
    address, the reply read begins with the header [NAMING REPLY ], is
    longer than it, and holds after it a token [VALUE=<addr>] with that very
    address, every token before which is one that the loop passes. *)
Theorem Lookup_success_inversion
        (sam : SAM) (name : string) (k : nat) (c1 c2 : Net.Conn)
        (reply : string) (a : I2PAddr) :
  Net.Write (conn sam) ("NAMING LOOKUP NAME=" ++ name ++ Str.nl)
  = (inl k, c1) ->
  Net.Read c1 4096 = (inl reply, c2) ->
  fst (Lookup sam name) = Ok a ->
  Str.HasPrefix reply "NAMING REPLY " = true
  /\ 13 < String.length reply
  /\ exists pre post : list string,
      Scanner.ScanWords (Str.drop 13 reply)
      = (pre ++ ("VALUE=" ++ a)%string :: post)%list
      /\ forallb (Lookup_continues name) pre = true.
Proof.
  intros Hw Hr; unfold Lookup; rewrite Hw, Hr.
  destruct (Nat.leb_spec (String.length reply) 13) as [|Hlen];
    [discriminate|].
  destruct (Str.HasPrefix reply "NAMING REPLY ") eqn:Hp; [|discriminate].
  cbn [orb negb fst].
  change (Str.slice 13 (String.length reply) reply)
    with (Str.slice_from 13 reply).
  rewrite slice_from_le by lia; cbn [sliced]; intros H.
  split; [reflexivity|]. split; [exact Hlen|].
  exact (Lookup_loop_Ok_inv name _ _ _ H).
Qed.

Lemma Lookup_success_inversion_witness :
  let reply := "NAMING REPLY RESULT=OK NAME=zzz.i2p VALUE=abc" in
  let sam := controller reply in
  let c1 := snd (Net.Write (conn sam)
                           ("NAMING LOOKUP NAME=" ++ "zzz.i2p" ++ Str.nl)) in
  Str.HasPrefix reply "NAMING REPLY " = true
  /\ 13 < String.length reply
  /\ exists pre post : list string,
      Scanner.ScanWords (Str.drop 13 reply)
      = (pre ++ ("VALUE=" ++ "abc")%string :: post)%list
      /\ forallb (Lookup_continues "zzz.i2p") pre = true.
Proof.
  intros reply sam c1.
  apply (Lookup_success_inversion sam "zzz.i2p" 27 c1
                                  (snd (Net.Read c1 4096)) reply "abc");
    reflexivity.
Defined.




(** The loop of [NewKeys] sets the public address from a [PUB=] token. *)
Lemma NewKeys_loop_PUB (p : string) (rest : list string) (pub priv : string) :
  NewKeys_loop (("PUB=" ++ p) :: rest) pub priv = NewKeys_loop rest p priv.
Proof.
  assert (Hp : Str.HasPrefix ("PUB=" ++ p) "PUB=" = true)
    by (apply HasPrefix_app; exists p; reflexivity).
  cbn [NewKeys_loop].
  destruct (String.eqb_spec ("PUB=" ++ p) "DEST") as [E|_];
    [discriminate E|].
  destruct (String.eqb_spec ("PUB=" ++ p) "REPLY") as [E|_];
    [discriminate E|].
  rewrite Hp, (sliced_prefix _ "PUB=" _ Hp); reflexivity.
Qed.

(** The loop of [NewKeys] sets the private key from a [PRIV=] token. *)
Lemma NewKeys_loop_PRIV (q : string) (rest : list string)
      (pub priv : string) :
  NewKeys_loop (("PRIV=" ++ q) :: rest) pub priv = NewKeys_loop rest pub q.
Proof.
  assert (Hq : Str.HasPrefix ("PRIV=" ++ q) "PRIV=" = true)
    by (apply HasPrefix_app; exists q; reflexivity).
  cbn [NewKeys_loop].
  destruct (String.eqb_spec ("PRIV=" ++ q) "DEST") as [E|_];
    [discriminate E|].
  destruct (String.eqb_spec ("PRIV=" ++ q) "REPLY") as [E|_];
    [discriminate E|].
  replace (Str.HasPrefix ("PRIV=" ++ q) "PUB=") with false by reflexivity.
  rewrite Hq, (sliced_prefix _ "PRIV=" _ Hq); reflexivity.
Qed.

(** X4.  Keys sent in the form of the protocol come back as sent: for a public
    address and a private key of printable bytes with no space, the reply
    [DEST REPLY PUB=<pub> PRIV=<priv>] and a line feed, or the same with the
    two tokens in the other order, gives the keys [<pub>] and [<priv>], the
    prefixes stripped. *)
Theorem NewKeys_round_trip
        (sam : SAM) (pub priv reply : string) (k : nat) (c1 c2 : Net.Conn) :
  Net.Write (conn sam) ("DEST GENERATE" ++ Str.nl) = (inl k, c1) ->
  Net.Read c1 (2 * 4096) = (inl reply, c2) ->
  word pub = true -> word priv = true ->
  reply = "DEST REPLY PUB=" ++ pub ++ " PRIV=" ++ priv ++ Str.nl
  \/ reply = "DEST REPLY PRIV=" ++ priv ++ " PUB=" ++ pub ++ Str.nl ->
  NewKeys sam = (Ok (mkI2PKeys pub priv), c2).
Proof.
  intros Hw Hr Hpub Hpriv Hreply.
  assert (Tpub : token ("PUB=" ++ pub) = true)
    by (apply token_field; [reflexivity|exact Hpub]).
  assert (Tpriv : token ("PRIV=" ++ priv) = true)
    by (apply token_field; [reflexivity|exact Hpriv]).
  unfold NewKeys; rewrite Hw, Hr; f_equal; unfold Scanner.ScanWords.
  destruct Hreply as [-> | ->].
  - change ("DEST REPLY PUB=" ++ pub ++ " PRIV=" ++ priv ++ Str.nl)
      with ("DEST" ++ " " ++ "REPLY" ++ " " ++ ("PUB=" ++ pub) ++ " "
              ++ ("PRIV=" ++ priv) ++ Str.nl).
    rewrite (words_token_space "DEST") by reflexivity.
    rewrite (words_token_space "REPLY") by reflexivity.
    rewrite (words_token_space ("PUB=" ++ pub)) by exact Tpub.
    rewrite (words_token_end ("PRIV=" ++ priv) Str.nl)
      by (try exact Tpriv; right; reflexivity).
    change (NewKeys_loop ["DEST"; "REPLY"; ("PUB=" ++ pub); ("PRIV=" ++ priv)]
                         EmptyString EmptyString)
      with (NewKeys_loop [("PUB=" ++ pub); ("PRIV=" ++ priv)]
                         EmptyString EmptyString).
    rewrite NewKeys_loop_PUB, NewKeys_loop_PRIV; reflexivity.
  - change ("DEST REPLY PRIV=" ++ priv ++ " PUB=" ++ pub ++ Str.nl)
      with ("DEST" ++ " " ++ "REPLY" ++ " " ++ ("PRIV=" ++ priv) ++ " "
              ++ ("PUB=" ++ pub) ++ Str.nl).
    rewrite (words_token_space "DEST") by reflexivity.
    rewrite (words_token_space "REPLY") by reflexivity.
    rewrite (words_token_space ("PRIV=" ++ priv)) by exact Tpriv.
    rewrite (words_token_end ("PUB=" ++ pub) Str.nl)
      by (try exact Tpub; right; reflexivity).
    change (NewKeys_loop ["DEST"; "REPLY"; ("PRIV=" ++ priv); ("PUB=" ++ pub)]
                         EmptyString EmptyString)
      with (NewKeys_loop [("PRIV=" ++ priv); ("PUB=" ++ pub)]
                         EmptyString EmptyString).
    rewrite NewKeys_loop_PRIV, NewKeys_loop_PUB; reflexivity.
Qed.

Lemma NewKeys_round_trip_witness :
  let reply := "DEST REPLY PRIV=" ++ "xyz~789" ++ " PUB=" ++ "abc-123"
                 ++ Str.nl in
  let sam := controller reply in
  let c1 := snd (Net.Write (conn sam) ("DEST GENERATE" ++ Str.nl)) in
  let c2 := snd (Net.Read c1 (2 * 4096)) in
  NewKeys sam = (Ok (mkI2PKeys "abc-123" "xyz~789"), c2).
Proof.
  intros reply sam c1 c2.
  apply (NewKeys_round_trip sam "abc-123" "xyz~789" reply 14 c1 c2);
    try reflexivity.
  right; reflexivity.
Defined.

(** ** Beyond the claims: the reply of [newGenericSession] *)

(** Once the handshake, the write of the command and the read have gone
    through, the outcome of [newGenericSession] is the classification of the
    reply read. *)
Lemma newGenericSession_reply
      (net_Dial : string -> string -> Net.Conn + error)
      (I2PKeys_String : I2PKeys -> string)
      (sam sam2 : SAM) (style id : string) (keys : I2PKeys)
      (options extras : list string)
      (opened : option Net.Conn) (c1 c2 : Net.Conn) (text : string) :
  NewSAM net_Dial (address sam) = (Ok sam2, opened) ->
  write_loop 15 (scmsg I2PKeys_String style id keys options extras) 0
             (conn sam2) = (None, c1) ->
  Net.Read c1 4096 = (inl text, c2) ->
  newGenericSession net_Dial I2PKeys_String sam style id keys options extras
  = (fst (session_reply I2PKeys_String keys text c2),
     Some (snd (session_reply I2PKeys_String keys text c2))).
Proof.
  intros Hsam Hloop Hread; unfold newGenericSession.
  rewrite Hsam, Hloop, Hread.
  destruct (session_reply I2PKeys_String keys text c2); reflexivity.
Qed.

(** X10.  The failures that the bridge reports.  Once the handshake, the write of
    the command and the read have gone through: the duplicated-id line gives
    the error [Duplicate tunnel name], the duplicated-destination line
    [Duplicate destination], the invalid-key line [Invalid key]; a reply
    that begins with the I2P-error prefix gives [I2P error ] followed by all
    that follows the prefix, a final line feed included; and any reply that
    is none of these and does not begin with the success prefix gives
    [Unable to parse SAMv3 reply: ] followed by the whole reply.  In each
    case the connection is closed. *)
Theorem newGenericSession_failure_replies
        (net_Dial : string -> string -> Net.Conn + error)
        (I2PKeys_String : I2PKeys -> string)
        (sam sam2 : SAM) (style id : string) (keys : I2PKeys)
        (options extras : list string)
        (opened : option Net.Conn) (c1 c2 : Net.Conn) (text : string) :
  NewSAM net_Dial (address sam) = (Ok sam2, opened) ->
  write_loop 15 (scmsg I2PKeys_String style id keys options extras) 0
             (conn sam2) = (None, c1) ->
  Net.Read c1 4096 = (inl text, c2) ->
  let run := newGenericSession net_Dial I2PKeys_String sam style id keys
                               options extras in
  (text = session_DUPLICATE_ID ->
   run = (Err (errors_New "Duplicate tunnel name"), Some (Net.Close c2)))
  /\ (text = session_DUPLICATE_DEST ->
      run = (Err (errors_New "Duplicate destination"), Some (Net.Close c2)))
  /\ (text = session_INVALID_KEY ->
      run = (Err (errors_New "Invalid key"), Some (Net.Close c2)))
  /\ (forall msg : string,
         text = session_I2P_ERROR ++ msg ->
         run = (Err (errors_New ("I2P error " ++ msg)), Some (Net.Close c2)))
  /\ (Str.HasPrefix text session_OK = false ->
      text <> session_DUPLICATE_ID -> text <> session_DUPLICATE_DEST ->
      text <> session_INVALID_KEY ->
      Str.HasPrefix text session_I2P_ERROR = false ->
      run = (Err (errors_New ("Unable to parse SAMv3 reply: " ++ text)),
             Some (Net.Close c2))).
Proof.
  intros Hsam Hloop Hread run; unfold run.
  rewrite (newGenericSession_reply _ _ _ _ _ _ _ _ _ _ _ _ _
                                   Hsam Hloop Hread).
  repeat match goal with |- _ /\ _ => split end.
  - intros ->; reflexivity.
  - intros ->; reflexivity.
  - intros ->; reflexivity.
  - intros msg ->; unfold session_reply.
    assert (Hi : Str.HasPrefix (session_I2P_ERROR ++ msg) session_I2P_ERROR
                 = true)
      by (apply HasPrefix_app; exists msg; reflexivity).
    replace (Str.HasPrefix (session_I2P_ERROR ++ msg) session_OK)
      with false by reflexivity.
    destruct (String.eqb_spec (session_I2P_ERROR ++ msg) session_DUPLICATE_ID)
      as [E|_]; [discriminate E|].
    destruct (String.eqb_spec (session_I2P_ERROR ++ msg)
                              session_DUPLICATE_DEST)
      as [E|_]; [discriminate E|].
    destruct (String.eqb_spec (session_I2P_ERROR ++ msg) session_INVALID_KEY)
      as [E|_]; [discriminate E|].
    rewrite Hi, (slice_from_prefix _ _ Hi), drop_app; reflexivity.
  - intros Hok H1 H2 H3 Hi; unfold session_reply; rewrite Hok, Hi.
    destruct (String.eqb_spec text session_DUPLICATE_ID); [contradiction|].
    destruct (String.eqb_spec text session_DUPLICATE_DEST); [contradiction|].
    destruct (String.eqb_spec text session_INVALID_KEY); [contradiction|].
    reflexivity.
Qed.

Lemma newGenericSession_failure_replies_witness :
  let text := session_I2P_ERROR ++ "no tunnels" ++ Str.nl in
  let c := bridge text in
  let sam := controller EmptyString in
  let hello := "HELLO VERSION MIN=3.0 MAX=3.0" ++ Str.nl in
  let sam2 := mkSAM (address sam)
                    (snd (Net.Read (snd (Net.Write c hello)) 256)) in
  let c1 := snd (write_loop 15 (scmsg I2PKeys_concat "STREAM" "tunnel"
                                      sample_keys [] [])
                            0 (conn sam2)) in
  let c2 := snd (Net.Read c1 4096) in
  let run := newGenericSession (dial_to c) I2PKeys_concat sam "STREAM"
                               "tunnel" sample_keys [] [] in
  (text = session_DUPLICATE_ID ->
   run = (Err (errors_New "Duplicate tunnel name"), Some (Net.Close c2)))
  /\ (text = session_DUPLICATE_DEST ->
      run = (Err (errors_New "Duplicate destination"), Some (Net.Close c2)))
  /\ (text = session_INVALID_KEY ->
      run = (Err (errors_New "Invalid key"), Some (Net.Close c2)))
  /\ (forall msg : string,
         text = session_I2P_ERROR ++ msg ->
         run = (Err (errors_New ("I2P error " ++ msg)), Some (Net.Close c2)))
  /\ (Str.HasPrefix text session_OK = false ->
      text <> session_DUPLICATE_ID -> text <> session_DUPLICATE_DEST ->
      text <> session_INVALID_KEY ->
      Str.HasPrefix text session_I2P_ERROR = false ->
      run = (Err (errors_New ("Unable to parse SAMv3 reply: " ++ text)),
             Some (Net.Close c2))).
Proof.
  intros text c sam hello sam2 c1 c2.
  apply (newGenericSession_failure_replies
           (dial_to c) I2PKeys_concat sam sam2 "STREAM" "tunnel" sample_keys
           [] [] (Some (conn sam2)) c1 c2 text); reflexivity.
Defined.

(** A string that is not empty ends in a byte. *)
Lemma string_last (s : string) :
  s <> EmptyString ->
  exists (d : string) (last : ascii), s = d ++ String last EmptyString.
Proof.
  induction s as [|a s IH]; intros H; [contradiction|].
  destruct s as [|b s].
  - exists EmptyString, a; reflexivity.
  - destruct (IH ltac:(discriminate)) as (d & last & ->).
    exists (String a d), last; reflexivity.
Qed.

(** X11.  The one reply that makes [newGenericSession] panic.  Once the
    handshake, the write of the command and the read have gone through, the
    call panics if and only if the reply read is the success prefix and
    nothing more; every other reply gives a connection or an error. *)
Theorem newGenericSession_panics_iff
        (net_Dial : string -> string -> Net.Conn + error)
        (I2PKeys_String : I2PKeys -> string)
        (sam sam2 : SAM) (style id : string) (keys : I2PKeys)
        (options extras : list string)
        (opened : option Net.Conn) (c1 c2 : Net.Conn) (text : string) :
  NewSAM net_Dial (address sam) = (Ok sam2, opened) ->
  write_loop 15 (scmsg I2PKeys_String style id keys options extras) 0
             (conn sam2) = (None, c1) ->
  Net.Read c1 4096 = (inl text, c2) ->
  fst (newGenericSession net_Dial I2PKeys_String sam style id keys options
                         extras) = Panic
  <-> text = session_OK.
Proof.
  intros Hsam Hloop Hread.
  rewrite (newGenericSession_reply _ _ _ _ _ _ _ _ _ _ _ _ _
                                   Hsam Hloop Hread); cbn [fst].
  split; [|intros ->; reflexivity].
  destruct (Str.HasPrefix text session_OK) eqn:Hp.
  - apply HasPrefix_app in Hp; destruct Hp as [r ->].
    destruct r as [|a r]; [intros _; reflexivity|].
    destruct (string_last (String a r) ltac:(discriminate))
      as (d & last & ->).
    rewrite session_reply_OK.
    destruct (I2PKeys_String keys =? d); discriminate.
  - destruct (session_reply_failure I2PKeys_String keys text c2 Hp)
      as [e ->]; discriminate.
Qed.

Lemma newGenericSession_panics_iff_witness :
  let c := bridge session_OK in
  let sam := controller EmptyString in
  let hello := "HELLO VERSION MIN=3.0 MAX=3.0" ++ Str.nl in
  let sam2 := mkSAM (address sam)
                    (snd (Net.Read (snd (Net.Write c hello)) 256)) in
  let c1 := snd (write_loop 15 (scmsg I2PKeys_concat "STREAM" "tunnel"
                                      sample_keys [] [])
                            0 (conn sam2)) in
  fst (newGenericSession (dial_to c) I2PKeys_concat sam "STREAM" "tunnel"
                         sample_keys [] []) = Panic
  <-> session_OK = session_OK.
Proof.
  intros c sam hello sam2 c1.
  apply (newGenericSession_panics_iff
           (dial_to c) I2PKeys_concat sam sam2 "STREAM" "tunnel" sample_keys
           [] [] (Some (conn sam2)) c1 (snd (Net.Read c1 4096)) session_OK);
    reflexivity.
Defined.

(** X12.  A connection is returned only for the keys asked for.  Once the
    handshake, the write of the command and the read have gone through,
    [newGenericSession] returns a connection if and only if the reply read
    is the success prefix, the serialization of the keys asked for and one
    more byte; the connection returned is then the one it opened, in the
    state the read left it. *)
Theorem newGenericSession_success_iff
        (net_Dial : string -> string -> Net.Conn + error)
        (I2PKeys_String : I2PKeys -> string)
        (sam sam2 : SAM) (style id : string) (keys : I2PKeys)
        (options extras : list string)
        (opened : option Net.Conn) (c1 c2 : Net.Conn) (text : string) :
  NewSAM net_Dial (address sam) = (Ok sam2, opened) ->
  write_loop 15 (scmsg I2PKeys_String style id keys options extras) 0
             (conn sam2) = (None, c1) ->
  Net.Read c1 4096 = (inl text, c2) ->
  let run := newGenericSession net_Dial I2PKeys_String sam style id keys
                               options extras in
  ((exists c : Net.Conn, fst run = Ok c)
   <-> (exists last : ascii,
           text = session_OK ++ I2PKeys_String keys
                    ++ String last EmptyString))
  /\ (forall c : Net.Conn, fst run = Ok c -> run = (Ok c2, Some c2)).
Proof.
  intros Hsam Hloop Hread run; unfold run.
  rewrite (newGenericSession_reply _ _ _ _ _ _ _ _ _ _ _ _ _
                                   Hsam Hloop Hread); cbn [fst].
  destruct (Str.HasPrefix text session_OK) eqn:Hp.
  - apply HasPrefix_app in Hp; destruct Hp as [r ->].
    destruct r as [|a r].
    + split; [split|]; try (intros [c H]; discriminate H);
        try (intros c H; discriminate H).
      intros [last H]; exfalso.
      apply (f_equal String.length) in H; rewrite !app_length in H.
      simpl in H; lia.
    + destruct (string_last (String a r) ltac:(discriminate))
        as (d & last & ->).
      rewrite session_reply_OK.
      destruct (String.eqb_spec (I2PKeys_String keys) d) as [<-|Hne];
        cbn [fst snd].
      * split; [split|]; [intros _; exists last; reflexivity
                         |intros _; exists c2; reflexivity
                         |intros c _; reflexivity].
      * split; [split|]; try (intros [c H]; discriminate H);
          try (intros c H; discriminate H).
        intros [last' H]; exfalso; apply Hne.
        assert (Hd : d ++ String last EmptyString
                     = I2PKeys_String keys ++ String last' EmptyString).
        { apply (f_equal (Str.drop (String.length session_OK))) in H.
          rewrite !drop_app in H; exact H. }
        assert (Hl : String.length d = String.length (I2PKeys_String keys)).
        { apply (f_equal String.length) in Hd; rewrite !app_length in Hd.
          simpl in Hd; lia. }
        apply (f_equal (Str.take (String.length d))) in Hd.
        rewrite take_app, Hl, take_app in Hd; symmetry; exact Hd.
  - destruct (session_reply_failure I2PKeys_String keys text c2 Hp)
      as [e ->]; cbn [fst snd].
    split; [split|]; try (intros [c H]; discriminate H);
      try (intros c H; discriminate H).
    intros [last H]; exfalso.
    assert (Hp' : Str.HasPrefix text session_OK = true)
      by (apply HasPrefix_app; eexists; exact H).
    congruence.
Qed.

Lemma newGenericSession_success_iff_witness :
  let text := session_OK ++ "PUBKPRIVK" ++ Str.nl in
  let c := bridge text in
  let sam := controller EmptyString in
  let hello := "HELLO VERSION MIN=3.0 MAX=3.0" ++ Str.nl in
  let sam2 := mkSAM (address sam)
                    (snd (Net.Read (snd (Net.Write c hello)) 256)) in
  let c1 := snd (write_loop 15 (scmsg I2PKeys_concat "STREAM" "tunnel"
                                      sample_keys [] [])
                            0 (conn sam2)) in
  let c2 := snd (Net.Read c1 4096) in
  let run := newGenericSession (dial_to c) I2PKeys_concat sam "STREAM"
                               "tunnel" sample_keys [] [] in
  ((exists c : Net.Conn, fst run = Ok c)
   <-> (exists last : ascii,
           text = session_OK ++ I2PKeys_concat sample_keys
                    ++ String last EmptyString))
  /\ (forall c : Net.Conn, fst run = Ok c -> run = (Ok c2, Some c2)).
Proof.
  intros text c sam hello sam2 c1 c2.
  apply (newGenericSession_success_iff
           (dial_to c) I2PKeys_concat sam sam2 "STREAM" "tunnel" sample_keys
           [] [] (Some (conn sam2)) c1 c2 text); reflexivity.
Defined.

(** ** Beyond the claims: a whole negotiation *)

(** Over a transport that takes all it is given, the write loop sends the
    command with its first call. *)
Lemma write_loop_one_shot (left : nat) (scmsg : string) (c : Net.Conn) :
  Net.to_write c = [] ->
  scmsg <> EmptyString ->
  write_loop (S left) scmsg 0 c
  = (None,
     Net.mkConn [] (Net.to_read c) (Net.sent c ++ scmsg) (S (Net.nwrites c))
                (Net.closed c)).
Proof.
  intros Hto Hne; cbn [write_loop].
  destruct (Nat.eqb_spec 0 (String.length scmsg)) as [E|_];
    [destruct scmsg; [contradiction|discriminate E]|].
  unfold Net.Write; rewrite Hto; cbn [Str.drop Nat.add].
  destruct left; cbn [write_loop]; rewrite Nat.eqb_refl; reflexivity.
Qed.

(** X13.  A negotiation with a bridge that cooperates.  For every style, id, keys,
    options and extras, when the keys serialize to at most 4058 bytes, so
    that the reply fits the read buffer of 4096, a bridge that takes all
    writes, answers the handshake with the success line and the command with
    the success prefix, the keys asked for and a line feed, makes
    [newGenericSession] return the connection it opened: open, with nothing
    left to read, after two calls of [Write] that have sent the [HELLO] line
    and then the session-create command, and nothing else. *)
Theorem newGenericSession_cooperative_bridge
        (I2PKeys_String : I2PKeys -> string)
        (sam : SAM) (style id : string) (keys : I2PKeys)
        (options extras : list string) :
  String.length (I2PKeys_String keys) <= 4058 ->
  newGenericSession
    (dial_to (bridge (session_OK ++ I2PKeys_String keys ++ Str.nl)))
    I2PKeys_String sam style id keys options extras
  = (Ok (Net.mkConn [] []
                    (("HELLO VERSION MIN=3.0 MAX=3.0" ++ Str.nl)
                       ++ scmsg I2PKeys_String style id keys options extras)
                    2 false),
     Some (Net.mkConn [] []
                      (("HELLO VERSION MIN=3.0 MAX=3.0" ++ Str.nl)
                         ++ scmsg I2PKeys_String style id keys options extras)
                      2 false)).
Proof.
  intros Hlen.
  set (reply := session_OK ++ I2PKeys_String keys ++ Str.nl).
  set (hello := "HELLO VERSION MIN=3.0 MAX=3.0" ++ Str.nl).
  set (cmd := scmsg I2PKeys_String style id keys options extras).
  assert (Hreply : String.length reply <= 4096).
  { unfold reply; rewrite !app_length; simpl; lia. }
  assert (Hsam : NewSAM (dial_to (bridge reply)) (address sam)
                 = (Ok (mkSAM (address sam)
                              (Net.mkConn [] [Net.Deliver reply] hello 1
                                          false)),
                    Some (Net.mkConn [] [Net.Deliver reply] hello 1 false)))
    by reflexivity.
  assert (Hloop : write_loop 15 cmd 0
                             (Net.mkConn [] [Net.Deliver reply] hello 1 false)
                  = (None,
                     Net.mkConn [] [Net.Deliver reply] (hello ++ cmd) 2
                                false)).
  { apply (write_loop_one_shot 14 cmd); [reflexivity|].
    unfold cmd, scmsg; discriminate. }
  assert (Hread : Net.Read (Net.mkConn [] [Net.Deliver reply] (hello ++ cmd) 2
                                       false) 4096
                  = (inl reply, Net.mkConn [] [] (hello ++ cmd) 2 false)).
  { unfold Net.Read; cbn [Net.to_read Net.to_write Net.sent Net.nwrites
                                      Net.closed].
    rewrite (take_all 4096 reply Hreply).
    apply Nat.leb_le in Hreply; rewrite Hreply; reflexivity. }
  unfold newGenericSession; rewrite Hsam; cbn [conn].
  fold cmd; rewrite Hloop, Hread.
  unfold reply, Str.nl; rewrite session_reply_OK, String.eqb_refl.
  reflexivity.
Qed.

Lemma newGenericSession_cooperative_bridge_witness :
  newGenericSession
    (dial_to (bridge (session_OK ++ I2PKeys_concat sample_keys ++ Str.nl)))
    I2PKeys_concat (controller EmptyString) "DATAGRAM" "tunnel" sample_keys
    ["inbound.length=2"] ["PORT=7655"]
  = (Ok (Net.mkConn [] []
                    (("HELLO VERSION MIN=3.0 MAX=3.0" ++ Str.nl)
                       ++ scmsg I2PKeys_concat "DATAGRAM" "tunnel" sample_keys
                            ["inbound.length=2"] ["PORT=7655"])
                    2 false),
     Some (Net.mkConn [] []
                      (("HELLO VERSION MIN=3.0 MAX=3.0" ++ Str.nl)
                         ++ scmsg I2PKeys_concat "DATAGRAM" "tunnel"
                              sample_keys ["inbound.length=2"] ["PORT=7655"])
                      2 false)).
Proof.
  apply (newGenericSession_cooperative_bridge
           I2PKeys_concat (controller EmptyString) "DATAGRAM" "tunnel"
           sample_keys ["inbound.length=2"] ["PORT=7655"]).
  vm_compute; lia.
Defined.
